(** * Marketplace ledger (hardhat/contracts/Marketplace.sol)

    A shallow embedding of the Solidity contract [Marketplace]: its storage,
    its three mutating entry points ([createMarketItem], [cancelMarketItem],
    [createMarketSale]) and its view functions, followed by the properties of
    the listing lifecycle.

    Conventions of the embedding:
    - [uint256] values are integers of [Z]; Solidity 0.8 checked arithmetic is
      written out ([checked_add], [checked_sub] revert with panic code 0x11);
    - [address] values are integers of [Z], [zero_address] is [address(0)];
    - a Solidity [mapping] is a [gmap] read through a default value
      ([getItem] returns the all-zero record for an unwritten key);
    - a call either returns ([Ok]) or reverts ([Revert]); a reverted call
      leaves the chain state as it was ([exec]);
    - a transaction carries its sender and its ether ([Msg]); a function that
      is not [payable] rejects a transaction that carries any ([nonpayable]);
    - [keccak256] is taken to be injective on the strings compared by
      [compareStrings], so the comparison is string equality;
    - the [nonReentrant] guard is not represented: the external calls of the
      model (a collection's [transferFrom] and [getTokenCreatorById], and
      [transfer] with its gas stipend) do not call back into the ledger, so
      the guard is never hit. *)

From stdpp Require Import base gmap list strings sorting.
From Stdlib Require Import ZArith Lia.

Open Scope Z_scope.

(** ** Values and results *)

Definition address : Type := Z.
Definition zero_address : address := 0.
Definition MAX_UINT256 : Z := 2 ^ 256 - 1.

Inductive Failure : Type :=
| Error (msg : string)      (* require(cond, msg) failed *)
| Panic (code : Z)          (* 0x11 arithmetic overflow, 0x32 array index *)
| CallReverted              (* an external call to a collection reverted *)
| SendFailed                (* value transfer could not be carried out *)
| NotPayable.               (* ether sent to a function that is not payable *)

Inductive result (A : Type) : Type :=
| Ok (a : A)
| Revert (f : Failure).
Arguments Ok {A} a.
Arguments Revert {A} f.

Global Instance result_bind : MBind result :=
  fun A B (k : A -> result B) (r : result A) =>
    match r with
    | Ok a => k a
    | Revert f => Revert f
    end.

Global Instance result_ret : MRet result := fun A a => Ok a.

Definition require (cond : bool) (msg : string) : result unit :=
  if cond then Ok tt else Revert (Error msg).

Definition is_ok {A : Type} (r : result A) : bool :=
  match r with Ok _ => true | Revert _ => false end.

Definition is_revert {A : Type} (r : result A) : bool := negb (is_ok r).

Definition checked_add (a b : Z) : result Z :=
  if a + b <=? MAX_UINT256 then Ok (a + b) else Revert (Panic 17).

Definition checked_sub (a b : Z) : result Z :=
  if b <=? a then Ok (a - b) else Revert (Panic 17).

(** ** The stored record *)

Record MarketItem : Type := mkMarketItem {
  marketItemId : Z;
  nftContractAddress : address;
  tokenId : Z;
  creator : address;
  seller : address;
  owner : address;
  price : Z;
  sold : bool;
  canceled : bool
}.

(** The value of an unwritten mapping slot and of [MarketItem memory x;]. *)
Definition emptyMarketItem : MarketItem :=
  mkMarketItem 0 zero_address 0 zero_address zero_address zero_address 0 false false.

Definition with_owner (a : address) (it : MarketItem) : MarketItem :=
  mkMarketItem (marketItemId it) (nftContractAddress it) (tokenId it)
    (creator it) (seller it) a (price it) (sold it) (canceled it).

Definition with_sold (b : bool) (it : MarketItem) : MarketItem :=
  mkMarketItem (marketItemId it) (nftContractAddress it) (tokenId it)
    (creator it) (seller it) (owner it) (price it) b (canceled it).

Definition with_canceled (b : bool) (it : MarketItem) : MarketItem :=
  mkMarketItem (marketItemId it) (nftContractAddress it) (tokenId it)
    (creator it) (seller it) (owner it) (price it) (sold it) b.

Inductive Event : Type :=
| MarketItemCreated (id : Z) (nft : address) (tid : Z)
    (creator_ seller_ owner_ : address) (price_ : Z) (sold_ canceled_ : bool)
| MarketItemSold (id : Z) (nft : address) (tid : Z)
    (seller_ buyer : address) (price_ : Z)
| MarketItemCanceled (id : Z) (nft : address) (tid : Z) (seller_ : address).

(** ** The token collection *)

(** Modelled from the spec: the token-collection contract ([NFT.sol] and the
    ERC-721 base it inherits) is not among the sources.  The ledger consumes
    two operations of it: "transfer custody from A to B (must reject if
    caller lacks authorization)" and "get recorded creator of token id".
    A collection records, per token id, the holder, an optional approved
    spender and the creator, and per holder the operators approved for all
    of its tokens. *)
Record Collection : Type := mkCollection {
  holders : gmap Z address;
  tokenApprovals : gmap Z address;
  operatorApprovals : gset (address * address);
  tokenCreators : gmap Z address
}.

Definition getTokenCreatorById (c : Collection) (tid : Z) : address :=
  default zero_address (tokenCreators c !! tid).

Definition isAuthorized (c : Collection) (holder spender : address) (tid : Z) : bool :=
  bool_decide (holder = spender)
  || bool_decide ((holder, spender) ∈ operatorApprovals c)
  || bool_decide (tokenApprovals c !! tid = Some spender).

(** [transferFrom c spender from to tid]: [spender] is the caller of the
    collection (the ledger itself in every call below). *)
Definition transferFrom (c : Collection) (spender from to : address) (tid : Z)
  : result Collection :=
  if bool_decide (to = zero_address) then Revert CallReverted else
  match holders c !! tid with
  | None => Revert CallReverted
  | Some holder =>
      if negb (isAuthorized c holder spender tid) then Revert CallReverted
      else if negb (bool_decide (holder = from)) then Revert CallReverted
      else Ok (mkCollection (<[tid := to]> (holders c))
                 (delete tid (tokenApprovals c))
                 (operatorApprovals c) (tokenCreators c))
  end.

(** ** Chain state: the contract's storage and its environment *)

Record State : Type := mkState {
  (* storage of Marketplace *)
  _marketItemIdCounter : Z;
  _tokensSoldCounter : Z;
  _tokensCanceledCounter : Z;
  contractOwner : address;                       (* [owner], immutable *)
  listingFee : Z;
  marketItemIdToMarketItem : gmap Z MarketItem;
  (* environment *)
  this : address;                                (* address(this) *)
  balances : gmap address Z;
  refusesEther : gset address;                   (* accounts whose receive fails *)
  collections : gmap address Collection;
  events : list Event
}.

Definition getItem (w : State) (id : Z) : MarketItem :=
  default emptyMarketItem (marketItemIdToMarketItem w !! id).

Definition balanceOf (w : State) (a : address) : Z :=
  default 0 (balances w !! a).

Definition set_counter (n : Z) (w : State) : State :=
  mkState n (_tokensSoldCounter w) (_tokensCanceledCounter w) (contractOwner w)
    (listingFee w) (marketItemIdToMarketItem w) (this w) (balances w)
    (refusesEther w) (collections w) (events w).

Definition set_sold_counter (n : Z) (w : State) : State :=
  mkState (_marketItemIdCounter w) n (_tokensCanceledCounter w) (contractOwner w)
    (listingFee w) (marketItemIdToMarketItem w) (this w) (balances w)
    (refusesEther w) (collections w) (events w).

Definition set_canceled_counter (n : Z) (w : State) : State :=
  mkState (_marketItemIdCounter w) (_tokensSoldCounter w) n (contractOwner w)
    (listingFee w) (marketItemIdToMarketItem w) (this w) (balances w)
    (refusesEther w) (collections w) (events w).

Definition set_item (id : Z) (it : MarketItem) (w : State) : State :=
  mkState (_marketItemIdCounter w) (_tokensSoldCounter w) (_tokensCanceledCounter w)
    (contractOwner w) (listingFee w) (<[id := it]> (marketItemIdToMarketItem w))
    (this w) (balances w) (refusesEther w) (collections w) (events w).

Definition set_balances (b : gmap address Z) (w : State) : State :=
  mkState (_marketItemIdCounter w) (_tokensSoldCounter w) (_tokensCanceledCounter w)
    (contractOwner w) (listingFee w) (marketItemIdToMarketItem w)
    (this w) b (refusesEther w) (collections w) (events w).

Definition set_collection (a : address) (c : Collection) (w : State) : State :=
  mkState (_marketItemIdCounter w) (_tokensSoldCounter w) (_tokensCanceledCounter w)
    (contractOwner w) (listingFee w) (marketItemIdToMarketItem w)
    (this w) (balances w) (refusesEther w) (<[a := c]> (collections w)) (events w).

Definition emit (e : Event) (w : State) : State :=
  mkState (_marketItemIdCounter w) (_tokensSoldCounter w) (_tokensCanceledCounter w)
    (contractOwner w) (listingFee w) (marketItemIdToMarketItem w)
    (this w) (balances w) (refusesEther w) (collections w) (events w ++ [e]).

(** Replaces the environment and leaves the contract's storage alone: what
    transactions that do not call the ledger can do to the state (mints,
    approvals, transfers between other accounts), over-approximated. *)
Definition set_environment (b : gmap address Z) (r : gset address)
    (cs : gmap address Collection) (w : State) : State :=
  mkState (_marketItemIdCounter w) (_tokensSoldCounter w) (_tokensCanceledCounter w)
    (contractOwner w) (listingFee w) (marketItemIdToMarketItem w)
    (this w) b r cs (events w).

(** ** Value transfers and external calls *)

Record Msg : Type := mkMsg { sender : address; value : Z }.

Definition move (from to : address) (amount : Z) (w : State) : State :=
  let b1 := <[from := balanceOf w from - amount]> (balances w) in
  let b2 := <[to := default 0 (b1 !! to) + amount]> b1 in
  set_balances b2 w.

(** Entry of a [payable] function: [msg.value] moves from the caller to the
    contract before the body runs. *)
Definition receive_value (w : State) (msg : Msg) : result State :=
  if (0 <=? value msg) && (value msg <=? balanceOf w (sender msg))
  then Ok (move (sender msg) (this w) (value msg) w)
  else Revert SendFailed.

(** [to.transfer(amount)] *)
Definition transfer (w : State) (to : address) (amount : Z) : result State :=
  if (amount <=? balanceOf w (this w)) && negb (bool_decide (to ∈ refusesEther w))
  then Ok (move (this w) to amount w)
  else Revert SendFailed.

(** [NFT(nft).getTokenCreatorById(tid)] *)
Definition call_getTokenCreatorById (w : State) (nft : address) (tid : Z)
  : result address :=
  match collections w !! nft with
  | Some c => Ok (getTokenCreatorById c tid)
  | None => Revert CallReverted
  end.

(** [IERC721(nft).transferFrom(from, to, tid)], called by the ledger. *)
Definition call_transferFrom (w : State) (nft from to : address) (tid : Z)
  : result State :=
  match collections w !! nft with
  | Some c =>
      c' ← transferFrom c (this w) from to tid;
      Ok (set_collection nft c' w)
  | None => Revert CallReverted
  end.

(** ** The contract *)

(** [constructor()]: the deployer becomes the fee beneficiary, the counters
    are zero, the mapping is empty and the fee is 0.045 ether. *)
Definition constructor (deployer self : address) (b : gmap address Z)
    (r : gset address) (cs : gmap address Collection) : State :=
  mkState 0 0 0 deployer 45000000000000000 ∅ self b r cs [].

Definition getListingFee (w : State) : Z := listingFee w.

Definition createMarketItem (w : State) (msg : Msg) (nft : address)
    (tid askPrice : Z) : result (Z * State) :=
  w ← receive_value w msg;
  _ ← require (0 <? askPrice) "Price must be at least 1 wei";
  _ ← require (value msg =? listingFee w) "Price must be equal to listing price";
  id ← checked_add (_marketItemIdCounter w) 1;
  let w := set_counter id w in
  creator_ ← call_getTokenCreatorById w nft tid;
  let w := set_item id
             (mkMarketItem id nft tid creator_ (sender msg) zero_address
                askPrice false false) w in
  w ← call_transferFrom w nft (sender msg) (this w) tid;
  let w := emit (MarketItemCreated id nft tid creator_ (sender msg)
                   zero_address askPrice false false) w in
  Ok (id, w).

(** Entry of a function that is not [payable]: a call carrying ether is
    rejected before the body runs. *)
Definition nonpayable (msg : Msg) : result unit :=
  if value msg =? 0 then Ok tt else Revert NotPayable.

(** [cancelMarketItem] is [public nonReentrant] and not [payable]. *)
Definition cancelMarketItem (w : State) (msg : Msg) (nft : address) (id : Z)
  : result State :=
  _ ← nonpayable msg;
  let tid := tokenId (getItem w id) in
  _ ← require (0 <? tid) "Market item has to exist";
  _ ← require (bool_decide (seller (getItem w id) = sender msg))
        "You are not the seller";
  w ← call_transferFrom w nft (this w) (sender msg) tid;
  let w := set_item id (with_owner (sender msg) (getItem w id)) w in
  let w := set_item id (with_canceled true (getItem w id)) w in
  n ← checked_add (_tokensCanceledCounter w) 1;
  let w := set_canceled_counter n w in
  Ok (emit (MarketItemCanceled id nft tid (sender msg)) w).

Definition createMarketSale (w : State) (msg : Msg) (nft : address) (id : Z)
  : result State :=
  w ← receive_value w msg;
  let price_ := price (getItem w id) in
  let tid := tokenId (getItem w id) in
  _ ← require (value msg =? price_)
         "Please submit the asking price in order to continue";
  let w := set_item id (with_owner (sender msg) (getItem w id)) w in
  let w := set_item id (with_sold true (getItem w id)) w in
  w ← transfer w (seller (getItem w id)) (value msg);
  w ← call_transferFrom w nft (this w) (sender msg) tid;
  n ← checked_add (_tokensSoldCounter w) 1;
  let w := set_sold_counter n w in
  w ← transfer w (contractOwner w) (listingFee w);
  Ok (emit (MarketItemSold id nft tid (seller (getItem w id)) (sender msg) price_) w).

(** [for (uint256 i = itemsCount; i > 0; i--)] with the counter as fuel. *)
Fixpoint latest_loop (w : State) (tid : Z) (i : nat) : MarketItem * bool :=
  match i with
  | O => (emptyMarketItem, false)
  | S j =>
      let item := getItem w (Z.of_nat i) in
      if negb (tokenId item =? tid) then latest_loop w tid j
      else (item, true)
  end.

Definition getLatestMarketItemByTokenId (w : State) (tid : Z) : MarketItem * bool :=
  let itemsCount := _marketItemIdCounter w in
  latest_loop w tid (Z.to_nat itemsCount).

(** The scan of [fetchAvailableMarketItems]: [n] iterations remain, [i] is
    the loop variable; writing past the end of the array panics (0x32). *)
Fixpoint available_loop (w : State) (n : nat) (i : Z)
    (marketItems : list MarketItem) (currentIndex : nat)
  : result (list MarketItem) :=
  match n with
  | O => Ok marketItems
  | S n' =>
      let item := getItem w (i + 1) in
      if negb (bool_decide (owner item = zero_address))
      then available_loop w n' (i + 1) marketItems currentIndex
      else if bool_decide (currentIndex < length marketItems)%nat
      then available_loop w n' (i + 1) (<[currentIndex := item]> marketItems)
             (S currentIndex)
      else Revert (Panic 50)
  end.

Definition fetchAvailableMarketItems (w : State) : result (list MarketItem) :=
  let itemsCount := _marketItemIdCounter w in
  let soldItemsCount := _tokensSoldCounter w in
  let canceledItemsCount := _tokensCanceledCounter w in
  d ← checked_sub itemsCount soldItemsCount;
  availableItemsCount ← checked_sub d canceledItemsCount;
  let marketItems := replicate (Z.to_nat availableItemsCount) emptyMarketItem in
  available_loop w (Z.to_nat itemsCount) 0 marketItems 0%nat.

Definition compareStrings (a b : string) : bool := String.eqb a b.

Definition getMarketItemAddressByProperty (item : MarketItem) (property : string)
  : result address :=
  _ ← require (compareStrings property "seller" || compareStrings property "owner")
         "Parameter must be 'seller' or 'owner'";
  Ok (if compareStrings property "seller" then seller item else owner item).

(** First pass of [fetchMarketItemsByAddressProperty]: counts the matches. *)
Fixpoint count_loop (w : State) (caller : address) (prop : string)
    (n : nat) (i : Z) (itemCount : nat) : result nat :=
  match n with
  | O => Ok itemCount
  | S n' =>
      let item := getItem w (i + 1) in
      addressPropertyValue ← getMarketItemAddressByProperty item prop;
      if negb (bool_decide (addressPropertyValue = caller))
      then count_loop w caller prop n' (i + 1) itemCount
      else count_loop w caller prop n' (i + 1) (S itemCount)
  end.

(** Second pass: fills the array. *)
Fixpoint fill_loop (w : State) (caller : address) (prop : string)
    (n : nat) (i : Z) (items : list MarketItem) (currentIndex : nat)
  : result (list MarketItem) :=
  match n with
  | O => Ok items
  | S n' =>
      let item := getItem w (i + 1) in
      addressPropertyValue ← getMarketItemAddressByProperty item prop;
      if negb (bool_decide (addressPropertyValue = caller))
      then fill_loop w caller prop n' (i + 1) items currentIndex
      else if bool_decide (currentIndex < length items)%nat
      then fill_loop w caller prop n' (i + 1) (<[currentIndex := item]> items)
             (S currentIndex)
      else Revert (Panic 50)
  end.

Definition fetchMarketItemsByAddressProperty (w : State) (caller : address)
    (_addressProperty : string) : result (list MarketItem) :=
  _ ← require (compareStrings _addressProperty "seller"
                || compareStrings _addressProperty "owner")
         "Parameter must be 'seller' or 'owner'";
  let totalItemsCount := _marketItemIdCounter w in
  itemCount ← count_loop w caller _addressProperty (Z.to_nat totalItemsCount) 0 0%nat;
  let items := replicate itemCount emptyMarketItem in
  fill_loop w caller _addressProperty (Z.to_nat totalItemsCount) 0 items 0%nat.

Definition fetchSellingMarketItems (w : State) (caller : address)
  : result (list MarketItem) :=
  fetchMarketItemsByAddressProperty w caller "seller".

Definition fetchOwnedMarketItems (w : State) (caller : address)
  : result (list MarketItem) :=
  fetchMarketItemsByAddressProperty w caller "owner".

(** ** Transactions and traces *)

Inductive Call : Type :=
| CreateMarketItem (msg : Msg) (nft : address) (tid askPrice : Z)
| CancelMarketItem (msg : Msg) (nft : address) (id : Z)
| CreateMarketSale (msg : Msg) (nft : address) (id : Z)
| Outside (b : gmap address Z) (r : gset address) (cs : gmap address Collection).

Definition call (w : State) (c : Call) : result State :=
  match c with
  | CreateMarketItem msg nft tid askPrice =>
      r ← createMarketItem w msg nft tid askPrice; Ok (r.2)
  | CancelMarketItem msg nft id => cancelMarketItem w msg nft id
  | CreateMarketSale msg nft id => createMarketSale w msg nft id
  | Outside b r cs => Ok (set_environment b r cs w)
  end.

(** A reverted transaction leaves the state as it was. *)
Definition exec (w : State) (c : Call) : State :=
  match call w c with
  | Ok w' => w'
  | Revert _ => w
  end.

Definition run (w : State) (cs : list Call) : State := foldl exec w cs.

Definition is_uint256 (x : Z) : bool := (0 <=? x) && (x <=? MAX_UINT256).

(** A transaction is never sent by the zero address, and its [uint256]
    arguments are in range. *)
Definition wf_call (c : Call) : bool :=
  match c with
  | CreateMarketItem msg _ tid askPrice =>
      negb (bool_decide (sender msg = zero_address))
      && is_uint256 (value msg) && is_uint256 tid && is_uint256 askPrice
  | CancelMarketItem msg _ id =>
      negb (bool_decide (sender msg = zero_address))
      && is_uint256 (value msg) && is_uint256 id
  | CreateMarketSale msg _ id =>
      negb (bool_decide (sender msg = zero_address))
      && is_uint256 (value msg) && is_uint256 id
  | Outside _ _ _ => true
  end.

Inductive reachable : State -> Prop :=
| reachable_init deployer self b r cs :
    reachable (constructor deployer self b r cs)
| reachable_step w c :
    reachable w -> wf_call c = true -> reachable (exec w c).

(** An item is live when it has been allocated and neither sold nor canceled. *)
Definition live (w : State) (id : Z) : bool :=
  (1 <=? id) && (id <=? _marketItemIdCounter w)
  && negb (sold (getItem w id)) && negb (canceled (getItem w id)).

Definition targets_live (w : State) (c : Call) : bool :=
  match c with
  | CancelMarketItem _ _ id => live w id
  | CreateMarketSale _ _ id => live w id
  | _ => true
  end.

(** A valid operation: a well-formed transaction that is rejected or, when
    it is a sale or a cancellation, is applied to a live item; along a valid
    trace each item is sold or canceled at most once. *)
Definition valid_call (w : State) (c : Call) : bool :=
  wf_call c && (is_revert (call w c) || targets_live w c).

Fixpoint valid_trace (w : State) (cs : list Call) : bool :=
  match cs with
  | [] => true
  | c :: cs' => valid_call w c && valid_trace (exec w c) cs'
  end.

(** The stored items in id order, and the ones still on offer. *)
Definition table (w : State) : list MarketItem :=
  getItem w <$> seqZ 1 (_marketItemIdCounter w).

Definition zero_owner (it : MarketItem) : Prop := owner it = zero_address.

Global Instance zero_owner_dec it : Decision (zero_owner it).
Proof. unfold zero_owner. apply _. Defined.

Definition available (w : State) : list MarketItem := filter zero_owner (table w).

(** ** The ledger seen from outside

    What one transaction can do to the contract's storage: nothing, allocate
    the next id, mark a record sold, or mark a record canceled. *)

Definition same_storage (w w' : State) : Prop :=
  _marketItemIdCounter w' = _marketItemIdCounter w
  /\ _tokensSoldCounter w' = _tokensSoldCounter w
  /\ _tokensCanceledCounter w' = _tokensCanceledCounter w
  /\ marketItemIdToMarketItem w' = marketItemIdToMarketItem w.

Inductive ledger_step (w w' : State) : Prop :=
| step_none :
    same_storage w w' -> ledger_step w w'
| step_create (it : MarketItem) :
    _marketItemIdCounter w' = _marketItemIdCounter w + 1 ->
    _marketItemIdCounter w + 1 <= MAX_UINT256 ->
    _tokensSoldCounter w' = _tokensSoldCounter w ->
    _tokensCanceledCounter w' = _tokensCanceledCounter w ->
    marketItemIdToMarketItem w'
      = <[_marketItemIdCounter w + 1 := it]> (marketItemIdToMarketItem w) ->
    marketItemId it = _marketItemIdCounter w + 1 ->
    0 <= tokenId it ->
    seller it ≠ zero_address -> owner it = zero_address ->
    sold it = false -> canceled it = false ->
    ledger_step w w'
| step_sale (id : Z) (buyer : address) :
    buyer ≠ zero_address ->
    _marketItemIdCounter w' = _marketItemIdCounter w ->
    _tokensSoldCounter w' = _tokensSoldCounter w + 1 ->
    _tokensSoldCounter w + 1 <= MAX_UINT256 ->
    _tokensCanceledCounter w' = _tokensCanceledCounter w ->
    marketItemIdToMarketItem w'
      = <[id := with_sold true (with_owner buyer (getItem w id))]>
          (marketItemIdToMarketItem w) ->
    ledger_step w w'
| step_cancel (id : Z) (caller : address) :
    caller ≠ zero_address ->
    0 < tokenId (getItem w id) ->
    seller (getItem w id) = caller ->
    _marketItemIdCounter w' = _marketItemIdCounter w ->
    _tokensSoldCounter w' = _tokensSoldCounter w ->
    _tokensCanceledCounter w' = _tokensCanceledCounter w + 1 ->
    _tokensCanceledCounter w + 1 <= MAX_UINT256 ->
    marketItemIdToMarketItem w'
      = <[id := with_canceled true (with_owner caller (getItem w id))]>
          (marketItemIdToMarketItem w) ->
    ledger_step w w'.

(** The number of allocated records whose owner is the zero address. *)
Definition zero_owner_count (w : State) : Z := Z.of_nat (length (available w)).

(** What holds of the storage in every reachable state. *)
Definition allocated (w : State) (k : Z) : Prop := 1 <= k <= _marketItemIdCounter w.

Record ledger_inv (w : State) : Prop := mk_ledger_inv {
  inv_counter : 0 <= _marketItemIdCounter w <= MAX_UINT256;
  inv_sold : 0 <= _tokensSoldCounter w;
  inv_canceled : 0 <= _tokensCanceledCounter w;
  inv_stored : forall k, allocated w k ->
    is_Some (marketItemIdToMarketItem w !! k)
    /\ marketItemId (getItem w k) = k
    /\ seller (getItem w k) ≠ zero_address;
  inv_terminal : forall k, allocated w k ->
    (owner (getItem w k) = zero_address
     <-> sold (getItem w k) = false /\ canceled (getItem w k) = false);
  inv_phantom : forall k, ~ allocated w k ->
    marketItemId (getItem w k) = 0 /\ tokenId (getItem w k) = 0
    /\ price (getItem w k) = 0 /\ seller (getItem w k) = zero_address;
  inv_tokenId : forall k, 0 <= tokenId (getItem w k);
  inv_count :
    _marketItemIdCounter w - _tokensSoldCounter w - _tokensCanceledCounter w
    <= zero_owner_count w
}.

(** The bookkeeping on which [fetchAvailableMarketItems] relies. *)
Definition counted (w : State) : Prop :=
  _marketItemIdCounter w - _tokensSoldCounter w - _tokensCanceledCounter w
  = zero_owner_count w.

(** ** What the external calls of a sale and of a cancellation need *)

Definition token_transfer_ok (w : State) (nft from to : address) (tid : Z) : bool :=
  match collections w !! nft with
  | Some c => is_ok (transferFrom c (this w) from to tid)
  | None => false
  end.

(** The conditions, other than the payment check, under which
    [createMarketSale] runs to its end: the buyer can fund the call, the
    payout to the seller goes through, the collection named in the call
    moves the token from the ledger to the buyer, the sold counter does not
    overflow and the fee can be paid out of the contract's balance. *)
Definition sale_transfers_ok (w : State) (msg : Msg) (nft : address) (id : Z) : bool :=
  let it := getItem w id in
  let w1 := move (sender msg) (this w) (value msg) w in
  let w3 := move (this w) (seller it) (value msg) w1 in
  (0 <=? value msg) && (value msg <=? balanceOf w (sender msg))
  && (value msg <=? balanceOf w1 (this w))
  && negb (bool_decide (seller it ∈ refusesEther w))
  && token_transfer_ok w nft (this w) (sender msg) (tokenId it)
  && (_tokensSoldCounter w + 1 <=? MAX_UINT256)
  && (listingFee w <=? balanceOf w3 (this w))
  && negb (bool_decide (contractOwner w ∈ refusesEther w)).

Definition cancel_transfer_ok (w : State) (caller nft : address) (id : Z) : bool :=
  token_transfer_ok w nft (this w) caller (tokenId (getItem w id))
  && (_tokensCanceledCounter w + 1 <=? MAX_UINT256).

(** The conditions of [createMarketItem] besides its two [require]s. *)
Definition listing_transfers_ok (w : State) (msg : Msg) (nft : address) (tid : Z) : bool :=
  (0 <=? value msg) && (value msg <=? balanceOf w (sender msg))
  && (_marketItemIdCounter w + 1 <=? MAX_UINT256)
  && token_transfer_ok w nft (sender msg) (this w) tid.

(** The greatest [marketItemId] found in the mapping, 0 when there is none. *)
Definition max_item_id (w : State) : Z :=
  map_fold (fun _ it acc => Z.max (marketItemId it) acc) 0 (marketItemIdToMarketItem w).

Definition ind (P : Prop) `{!Decision P} : Z := if decide P then 1 else 0.

(** The address a role tag selects, and the records a caller has in a role. *)
Definition role_address (prop : string) (it : MarketItem) : address :=
  if compareStrings prop "seller" then seller it else owner it.

Definition has_role (prop : string) (caller : address) (it : MarketItem) : Prop :=
  role_address prop it = caller.

Global Instance has_role_dec prop caller it : Decision (has_role prop caller it).
Proof. unfold has_role. apply _. Defined.

Definition valid_role (prop : string) : bool :=
  compareStrings prop "seller" || compareStrings prop "owner".

(** How a stored record may differ between an earlier and a later state. *)
Definition item_evolves (it it' : MarketItem) : Prop :=
  marketItemId it' = marketItemId it
  /\ nftContractAddress it' = nftContractAddress it
  /\ tokenId it' = tokenId it
  /\ creator it' = creator it
  /\ seller it' = seller it
  /\ price it' = price it
  /\ (sold it = true -> sold it' = true)
  /\ (canceled it = true -> canceled it' = true).

Definition ledger_grows (w w' : State) : Prop :=
  _marketItemIdCounter w <= _marketItemIdCounter w'
  /\ (forall k, is_Some (marketItemIdToMarketItem w !! k) ->
                is_Some (marketItemIdToMarketItem w' !! k))
  /\ (forall k, allocated w k -> item_evolves (getItem w k) (getItem w' k)).

(** ** A concrete chain *)

Module Scenario.
Definition deployer : address := 100.
Definition alice : address := 101.
Definition bob : address := 102.
Definition carol : address := 103.
Definition market : address := 900.
Definition art : address := 500.
Definition fee : Z := 45000000000000000.

(** [art] has token 7 (held by alice) and tokens 9 and 0 (held by bob);
    alice, bob and carol have approved the ledger for all their tokens. *)
Definition art0 : Collection :=
  mkCollection {[ 7 := alice; 9 := bob; 0 := bob ]} ∅
    {[ (alice, market); (bob, market); (carol, market) ]}
    {[ 7 := alice; 9 := bob; 0 := bob ]}.

Definition funds : gmap address Z :=
  {[ alice := 10 ^ 18; bob := 10 ^ 18; carol := 10 ^ 18 ]}.

(** A second collection, [prints], whose token 7 is held by carol. *)
Definition prints : address := 501.
Definition prints0 : Collection :=
  mkCollection {[ 7 := carol ]} ∅ {[ (carol, market) ]} {[ 7 := carol ]}.

Definition w0 : State :=
  constructor deployer market funds ∅ {[ art := art0; prints := prints0 ]}.

(** alice lists token 7 for 100 wei; bob buys it. *)
Definition list7 : Call := CreateMarketItem (mkMsg alice fee) art 7 100.
Definition buy1 (who : address) : Call := CreateMarketSale (mkMsg who 100) art 1.
Definition w1 : State := exec w0 list7.
Definition w2 : State := exec w1 (buy1 bob).

(** bob lists token 7 again, as item 2 and for 250 wei; he lists token 9
    as item 3 and takes that listing back; he lists token 0 as item 4. *)
Definition relist7 : Call := CreateMarketItem (mkMsg bob fee) art 7 250.
Definition list9 : Call := CreateMarketItem (mkMsg bob fee) art 9 30.
Definition cancel3 : Call := CancelMarketItem (mkMsg bob 0) art 3.
Definition list0 : Call := CreateMarketItem (mkMsg bob fee) art 0 40.
Definition w3 : State := exec w2 relist7.
Definition w4 : State := exec w3 list9.
Definition w5 : State := exec w4 cancel3.
Definition w6 : State := exec w5 list0.

(** carol "buys" the never allocated id 5 for nothing, and bob lists
    token 9 again, which allocates id 5. *)
Definition phantom5 : Call := CreateMarketSale (mkMsg carol 0) art 5.
Definition relist9 : Call := CreateMarketItem (mkMsg bob fee) art 9 60.
Definition w7 : State := exec w6 phantom5.
Definition w8 : State := exec w7 relist9.

(** Another course of events after alice's listing: carol lists token 7 of
    [prints] as item 2, and alice cancels item 1 naming [prints]. *)
Definition listp7 : Call := CreateMarketItem (mkMsg carol fee) prints 7 500.
Definition cancel1_prints : Call := CancelMarketItem (mkMsg alice 0) prints 1.
Definition v2 : State := exec w1 listp7.
Definition v3 : State := exec v2 cancel1_prints.

Definition history : list Call :=
  [list7; buy1 bob; relist7; list9; cancel3; list0].
End Scenario.

(** ** The event log *)

Definition created_id (e : Event) : option Z :=
  match e with
  | MarketItemCreated id _ _ _ _ _ _ _ _ => Some id
  | _ => None
  end.

Definition sold_id (e : Event) : option Z :=
  match e with
  | MarketItemSold id _ _ _ _ _ => Some id
  | _ => None
  end.

Definition canceled_id (e : Event) : option Z :=
  match e with
  | MarketItemCanceled id _ _ _ => Some id
  | _ => None
  end.

(** ** Traces in which ether reaches the ledger through its entry points only *)

(** A transaction that leaves the contract's balance to its entry points: a
    call to one of the three entry points sent by an account other than the
    ledger itself, or anything else that happens on the chain (mints,
    approvals, transfers between other accounts) as long as it does not
    change the ledger's own balance. *)
Definition ledger_call (w : State) (c : Call) : bool :=
  wf_call c &&
  match c with
  | CreateMarketItem msg _ _ _ => negb (bool_decide (sender msg = this w))
  | CancelMarketItem msg _ _ => negb (bool_decide (sender msg = this w))
  | CreateMarketSale msg _ _ => negb (bool_decide (sender msg = this w))
  | Outside b _ _ => bool_decide (default 0 (b !! this w) = balanceOf w (this w))
  end.

Fixpoint closed_trace (w : State) (cs : list Call) : bool :=
  match cs with
  | [] => true
  | c :: cs' => ledger_call w c && closed_trace (exec w c) cs'
  end.

(** ** The client's reading of a listing (hooks/useNFT, [loadNFTs]) *)

(** [const isListed = exists && !listing.sold && !listing.canceled], on the
    pair returned by [getLatestMarketItemByTokenId]. *)
Definition isListed (r : MarketItem * bool) : bool :=
  r.2 && negb (sold r.1) && negb (canceled r.1).

(** What holds of the contract's balance along a trace of ledger calls that
    starts with balance [b0]. *)
Record closed_inv (self : address) (b0 : Z) (w : State) : Prop := mk_closed_inv {
  closed_this : this w = self;
  closed_owner : contractOwner w ≠ self;
  closed_sellers : forall k, seller (getItem w k) ≠ self;
  closed_balance :
    balanceOf w self
    = b0 + listingFee w * (_marketItemIdCounter w - _tokensSoldCounter w);
  closed_nonneg : 0 <= balanceOf w self
}.

(** [unlistNFT] of the same hook.  The hook returns at once when the
    contracts are not set ([contracts] is the address of the configured
    collection when they are).  Otherwise it reads the newest listing of the
    token with a view call, on the state [w], and when there is one sends a
    separate transaction that cancels the id it read; the transactions
    [between] are the ones that reach the chain in the meantime.  [tid] is
    the token id as it is encoded for the two calls, a [uint256]; [account]
    is the connected account, which sends the transaction, without ether.  A
    failure is what the hook catches and reports. *)
Inductive Outcome : Type :=
| NotConnected
| Failed (f : Failure)
| Unlisted.

Definition unlistNFT (w : State) (between : list Call) (contracts : option address)
    (account : address) (tid : Z) : Outcome * State :=
  match contracts with
  | None => (NotConnected, w)
  | Some nftAddress =>
      let '(listing, exists_) := getLatestMarketItemByTokenId w tid in
      if negb exists_ then (Failed (Error "NFT is not listed"), w)
      else
        let w1 := run w between in
        match cancelMarketItem w1 (mkMsg account 0) nftAddress
                (marketItemId listing) with
        | Ok w2 => (Unlisted, w2)
        | Revert f => (Failed f, w1)
        end
  end.

(** ** Approving, then listing *)

(** Modelled from the spec: [approve(to, tid)] of the token collection
    ([NFT.sol] is not among the sources), by which a caller becomes
    "approved" for a token in the spec's words, and which the client sends
    before it lists a token: the holder of the token, or an operator of the
    holder, names the spender approved for it. *)
Definition approve (c : Collection) (caller to : address) (tid : Z)
  : result Collection :=
  match holders c !! tid with
  | None => Revert CallReverted
  | Some holder =>
      if bool_decide (holder = caller)
         || bool_decide ((holder, caller) ∈ operatorApprovals c)
      then Ok (mkCollection (holders c) (<[tid := to]> (tokenApprovals c))
                 (operatorApprovals c) (tokenCreators c))
      else Revert CallReverted
  end.

(** The transaction [IERC721(nft).approve(to, tid)] sent by [caller] in the
    state [w], as a step of the chain that does not call the ledger. *)
Definition approval (w : State) (nft caller to : address) (tid : Z) : Call :=
  match c ← collections w !! nft; Some (approve c caller to tid) with
  | Some (Ok c') =>
      Outside (balances w) (refusesEther w) (<[nft := c']> (collections w))
  | _ => Outside (balances w) (refusesEther w) (collections w)
  end.

Module Flow.
(** dave holds token 5 of [art] and has approved nobody; erin will pay him
    ether between two calls of the ledger. *)
Definition dave : address := 104.
Definition erin : address := 105.
Definition art1 : Collection := mkCollection {[ 5 := dave ]} ∅ ∅ {[ 5 := dave ]}.
Definition funds : gmap address Z :=
  {[ dave := 10 ^ 18; erin := 10 ^ 18; Scenario.alice := 10 ^ 18 ]}.
Definition u0 : State :=
  constructor Scenario.deployer Scenario.market funds ∅ {[ Scenario.art := art1 ]}.
Definition approve5 : Call := approval u0 Scenario.art dave Scenario.market 5.
Definition u1 : State := exec u0 approve5.
Definition list5 : Call := CreateMarketItem (mkMsg dave Scenario.fee) Scenario.art 5 10.
Definition u2 : State := exec u1 list5.
Definition pay_dave : Call :=
  Outside (<[erin := balanceOf u2 erin - 3]> (<[dave := balanceOf u2 dave + 3]>
             (balances u2)))
    (refusesEther u2) (collections u2).
Definition u3 : State := exec u2 pay_dave.
Definition buy5 : Call := CreateMarketSale (mkMsg Scenario.alice 10) Scenario.art 1.
Definition history : list Call := [approve5; list5; pay_dave; buy5].
End Flow.

(** * Properties *)

(** ** Reading the state after an update *)

Lemma getItem_set_item w k it j :
  getItem (set_item k it w) j = if decide (k = j) then it else getItem w j.
Proof.
  unfold getItem; simpl. rewrite lookup_insert. by destruct (decide (k = j)).
Qed.

Lemma getItem_set_item_eq w k it : getItem (set_item k it w) k = it.
Proof. rewrite getItem_set_item. by rewrite decide_True. Qed.

Lemma getItem_set_item_ne w k it j : k ≠ j -> getItem (set_item k it w) j = getItem w j.
Proof. intros. rewrite getItem_set_item. by rewrite decide_False. Qed.

Lemma getItem_ext w w' :
  marketItemIdToMarketItem w' = marketItemIdToMarketItem w ->
  forall k, getItem w' k = getItem w k.
Proof. intros E k. unfold getItem. by rewrite E. Qed.

Lemma set_item_set_item w k it1 it2 :
  set_item k it2 (set_item k it1 w) = set_item k it2 w.
Proof. unfold set_item; simpl. by rewrite insert_insert_eq. Qed.

Lemma getItem_move w a b v k : getItem (move a b v w) k = getItem w k.
Proof. reflexivity. Qed.
Lemma getItem_set_collection w a c k : getItem (set_collection a c w) k = getItem w k.
Proof. reflexivity. Qed.
Lemma getItem_set_counter w n k : getItem (set_counter n w) k = getItem w k.
Proof. reflexivity. Qed.
Lemma getItem_set_sold_counter w n k : getItem (set_sold_counter n w) k = getItem w k.
Proof. reflexivity. Qed.
Lemma getItem_set_canceled_counter w n k :
  getItem (set_canceled_counter n w) k = getItem w k.
Proof. reflexivity. Qed.
Lemma getItem_emit w e k : getItem (emit e w) k = getItem w k.
Proof. reflexivity. Qed.
Lemma getItem_set_environment w b r cs k :
  getItem (set_environment b r cs w) k = getItem w k.
Proof. reflexivity. Qed.

Lemma balanceOf_set_item w k it a : balanceOf (set_item k it w) a = balanceOf w a.
Proof. reflexivity. Qed.
Lemma balanceOf_set_collection w n c a : balanceOf (set_collection n c w) a = balanceOf w a.
Proof. reflexivity. Qed.
Lemma balanceOf_set_counter w n a : balanceOf (set_counter n w) a = balanceOf w a.
Proof. reflexivity. Qed.
Lemma balanceOf_set_sold_counter w n a : balanceOf (set_sold_counter n w) a = balanceOf w a.
Proof. reflexivity. Qed.
Lemma balanceOf_set_canceled_counter w n a :
  balanceOf (set_canceled_counter n w) a = balanceOf w a.
Proof. reflexivity. Qed.
Lemma balanceOf_emit w e a : balanceOf (emit e w) a = balanceOf w a.
Proof. reflexivity. Qed.

Create Rewrite HintDb state.
#[export] Hint Rewrite set_item_set_item getItem_set_item_eq
  getItem_move getItem_set_collection getItem_set_counter
  getItem_set_sold_counter getItem_set_canceled_counter getItem_emit
  getItem_set_environment
  balanceOf_set_item balanceOf_set_collection balanceOf_set_counter
  balanceOf_set_sold_counter balanceOf_set_canceled_counter balanceOf_emit
  : state.

Lemma balanceOf_move w a b v x :
  balanceOf (move a b v w) x
  = balanceOf w x - (if decide (x = a) then v else 0)
    + (if decide (x = b) then v else 0).
Proof.
  unfold balanceOf, move; simpl.
  destruct (decide (x = b)) as [->|Hb].
  - rewrite lookup_insert_eq. simpl.
    destruct (decide (b = a)) as [->|Ha].
    + rewrite lookup_insert_eq. simpl. unfold balanceOf. lia.
    + rewrite lookup_insert_ne by done. unfold balanceOf. lia.
  - rewrite lookup_insert_ne by done.
    destruct (decide (x = a)) as [->|Ha].
    + rewrite lookup_insert_eq. simpl. unfold balanceOf. lia.
    + rewrite lookup_insert_ne by done. lia.
Qed.

(** ** Inverting a call that returned *)

Lemma require_Ok b msg u : require b msg = Ok u -> b = true.
Proof. unfold require. by destruct b. Qed.

Lemma checked_add_Ok a b n : checked_add a b = Ok n -> n = a + b /\ a + b <= MAX_UINT256.
Proof.
  unfold checked_add. destruct (Z.leb_spec (a + b) MAX_UINT256); [|done].
  intros [= <-]. done.
Qed.

Lemma checked_sub_Ok a b n : checked_sub a b = Ok n -> n = a - b /\ b <= a.
Proof.
  unfold checked_sub. destruct (Z.leb_spec b a); [|done].
  intros [= <-]. done.
Qed.

Lemma receive_value_Ok w msg w' :
  receive_value w msg = Ok w' ->
  0 <= value msg <= balanceOf w (sender msg)
  /\ w' = move (sender msg) (this w) (value msg) w.
Proof.
  unfold receive_value.
  destruct (Z.leb_spec 0 (value msg)), (Z.leb_spec (value msg) (balanceOf w (sender msg)));
    simpl; try done.
  intros [= <-]. split; [lia | done].
Qed.

Lemma transfer_Ok w to amount w' :
  transfer w to amount = Ok w' ->
  amount <= balanceOf w (this w) /\ (to ∉ refusesEther w)
  /\ w' = move (this w) to amount w.
Proof.
  unfold transfer.
  destruct (Z.leb_spec amount (balanceOf w (this w))); simpl; [|done].
  case_bool_decide; simpl; [done|]. intros [= <-]. done.
Qed.

Lemma call_transferFrom_Ok w nft from to tid w' :
  call_transferFrom w nft from to tid = Ok w' ->
  exists c c', collections w !! nft = Some c
    /\ transferFrom c (this w) from to tid = Ok c'
    /\ w' = set_collection nft c' w.
Proof.
  unfold call_transferFrom. destruct (collections w !! nft) as [c|]; [|done].
  unfold mbind, result_bind. destruct (transferFrom c (this w) from to tid) as [c'|] eqn:E; [|done].
  intros [= <-]. eauto.
Qed.

Lemma transferFrom_Ok c spender from to tid c' :
  transferFrom c spender from to tid = Ok c' ->
  to ≠ zero_address /\ holders c !! tid = Some from
  /\ isAuthorized c from spender tid = true
  /\ holders c' !! tid = Some to.
Proof.
  unfold transferFrom. case_bool_decide; [done|].
  destruct (holders c !! tid) as [h|]; [|done].
  destruct (isAuthorized c h spender tid) eqn:Ha; simpl; [|done].
  case_bool_decide; simpl; [|done]. subst h.
  intros [= <-]. simpl. rewrite lookup_insert_eq. done.
Qed.

(** Splits [r ≫= k = Ok x] into the two calls that returned. *)
Lemma bind_Ok {A B : Type} (r : result A) (k : A -> result B) (b : B) :
  (r ≫= k) = Ok b -> exists a, r = Ok a /\ k a = Ok b.
Proof. unfold mbind, result_bind. destruct r; [eauto | done]. Qed.

Ltac inv_bind H :=
  repeat match type of H with
  | (_ ≫= _) = Ok _ =>
      let a := fresh "a" in let E := fresh "E" in
      apply bind_Ok in H as (a & E & H)
  end.

(** ** Every transaction is a ledger step *)

Lemma createMarketItem_Ok w msg nft tid askPrice id w' :
  createMarketItem w msg nft tid askPrice = Ok (id, w') ->
  exists c c',
    0 <= value msg <= balanceOf w (sender msg)
    /\ 0 < askPrice
    /\ value msg = listingFee w
    /\ id = _marketItemIdCounter w + 1
    /\ id <= MAX_UINT256
    /\ collections w !! nft = Some c
    /\ transferFrom c (this w) (sender msg) (this w) tid = Ok c'
    /\ w' = emit (MarketItemCreated id nft tid (getTokenCreatorById c tid)
                    (sender msg) zero_address askPrice false false)
              (set_collection nft c'
                 (set_item id
                    (mkMarketItem id nft tid (getTokenCreatorById c tid)
                       (sender msg) zero_address askPrice false false)
                    (set_counter id
                       (move (sender msg) (this w) (value msg) w)))).
Proof.
  unfold createMarketItem. intros H. inv_bind H.
  apply receive_value_Ok in E as [Hv ->].
  apply require_Ok, Z.ltb_lt in E0.
  apply require_Ok, Z.eqb_eq in E1.
  apply checked_add_Ok in E2 as [-> Hle].
  unfold call_getTokenCreatorById in E3; simpl in E3.
  destruct (collections w !! nft) as [c|] eqn:Ec; [|done].
  injection E3 as <-.
  apply call_transferFrom_Ok in E4 as (c0 & c' & Hc0 & Htr & ->).
  simpl in Hc0, Htr. rewrite Ec in Hc0. injection Hc0 as <-.
  injection H as <- <-. exists c, c'. simpl in *. done.
Qed.

Lemma createMarketSale_Ok w msg nft id w' :
  createMarketSale w msg nft id = Ok w' ->
  let it := getItem w id in
  let w1 := move (sender msg) (this w) (value msg) w in
  let w2 := set_item id (with_sold true (with_owner (sender msg) it)) w1 in
  let w3 := move (this w) (seller it) (value msg) w2 in
  exists c c',
    0 <= value msg <= balanceOf w (sender msg)
    /\ value msg = price it
    /\ value msg <= balanceOf w1 (this w)
    /\ (seller it ∉ refusesEther w)
    /\ collections w !! nft = Some c
    /\ transferFrom c (this w) (this w) (sender msg) (tokenId it) = Ok c'
    /\ _tokensSoldCounter w + 1 <= MAX_UINT256
    /\ listingFee w <= balanceOf w3 (this w)
    /\ (contractOwner w ∉ refusesEther w)
    /\ w' = emit (MarketItemSold id nft (tokenId it) (seller it) (sender msg) (price it))
              (move (this w) (contractOwner w) (listingFee w)
                 (set_sold_counter (_tokensSoldCounter w + 1)
                    (set_collection nft c' w3))).
Proof.
  unfold createMarketSale. intros H. inv_bind H.
  apply receive_value_Ok in E as [Hv ->].
  apply require_Ok, Z.eqb_eq in E0.
  apply transfer_Ok in E1 as (Hb1 & Hr1 & ->).
  apply call_transferFrom_Ok in E2 as (c & c' & Hc & Htr & ->).
  apply checked_add_Ok in E3 as [-> Hle].
  apply transfer_Ok in E4 as (Hb2 & Hr2 & ->).
  injection H as <-.
  autorewrite with state in *. simpl in *.
  exists c, c'. done.
Qed.

Lemma nonpayable_Ok msg u : nonpayable msg = Ok u -> value msg = 0.
Proof. unfold nonpayable. by destruct (Z.eqb_spec (value msg) 0). Qed.

Lemma nonpayable_zero msg : value msg = 0 -> nonpayable msg = Ok tt.
Proof. unfold nonpayable. by intros ->. Qed.

Lemma nonpayable_Revert msg : value msg ≠ 0 -> nonpayable msg = Revert NotPayable.
Proof. unfold nonpayable. by destruct (Z.eqb_spec (value msg) 0). Qed.

Lemma cancelMarketItem_value w msg nft id w' :
  cancelMarketItem w msg nft id = Ok w' -> value msg = 0.
Proof.
  unfold cancelMarketItem. intros H. apply bind_Ok in H as (a & E & _).
  by apply nonpayable_Ok in E.
Qed.

Lemma cancelMarketItem_payable w msg nft id :
  value msg ≠ 0 -> cancelMarketItem w msg nft id = Revert NotPayable.
Proof.
  intros Hv. unfold cancelMarketItem. by rewrite (nonpayable_Revert _ Hv).
Qed.

Lemma cancelMarketItem_Ok w msg nft id w' :
  cancelMarketItem w msg nft id = Ok w' ->
  let it := getItem w id in
  exists c c',
    0 < tokenId it
    /\ seller it = sender msg
    /\ collections w !! nft = Some c
    /\ transferFrom c (this w) (this w) (sender msg) (tokenId it) = Ok c'
    /\ _tokensCanceledCounter w + 1 <= MAX_UINT256
    /\ w' = emit (MarketItemCanceled id nft (tokenId it) (sender msg))
              (set_canceled_counter (_tokensCanceledCounter w + 1)
                 (set_item id (with_canceled true (with_owner (sender msg) it))
                    (set_collection nft c' w))).
Proof.
  unfold cancelMarketItem. intros H. inv_bind H. clear E.
  rename E0 into E, E1 into E0, E2 into E1, E3 into E2.
  apply require_Ok, Z.ltb_lt in E.
  apply require_Ok, bool_decide_eq_true in E0.
  apply call_transferFrom_Ok in E1 as (c & c' & Hc & Htr & ->).
  apply checked_add_Ok in E2 as [-> Hle].
  injection H as <-.
  autorewrite with state in *. simpl in *.
  exists c, c'. done.
Qed.

Lemma is_uint256_spec x : is_uint256 x = true -> 0 <= x <= MAX_UINT256.
Proof. unfold is_uint256. intros [?%Z.leb_le ?%Z.leb_le]%andb_true_iff. lia. Qed.

Lemma wf_create msg nft tid p :
  wf_call (CreateMarketItem msg nft tid p) = true ->
  sender msg ≠ zero_address /\ 0 <= tid.
Proof.
  simpl. intros [[[Hs _]%andb_true_iff Ht]%andb_true_iff _]%andb_true_iff.
  apply negb_true_iff, bool_decide_eq_false in Hs.
  apply is_uint256_spec in Ht. split; [done | lia].
Qed.

Lemma wf_cancel msg nft id :
  wf_call (CancelMarketItem msg nft id) = true -> sender msg ≠ zero_address.
Proof.
  simpl. intros [[Hs _]%andb_true_iff _]%andb_true_iff.
  by apply negb_true_iff, bool_decide_eq_false in Hs.
Qed.

Lemma wf_sale msg nft id :
  wf_call (CreateMarketSale msg nft id) = true -> sender msg ≠ zero_address.
Proof.
  simpl. intros [[Hs _]%andb_true_iff _]%andb_true_iff.
  by apply negb_true_iff, bool_decide_eq_false in Hs.
Qed.

Lemma call_ledger_step w c w' :
  wf_call c = true -> call w c = Ok w' -> ledger_step w w'.
Proof.
  intros Hwf H. destruct c as [msg nft tid p | msg nft id | msg nft id | b r cs].
  - apply wf_create in Hwf as [Hs Ht]. simpl in H.
    inv_bind H. destruct a as [id w1]. injection H as <-.
    apply createMarketItem_Ok in E as (c & c' & _ & _ & _ & -> & Hle & _ & _ & ->).
    by eapply step_create.
  - apply wf_cancel in Hwf. simpl in H.
    apply cancelMarketItem_Ok in H as (c & c' & Ht & Hs & _ & _ & Hle & ->).
    by eapply step_cancel.
  - apply wf_sale in Hwf. simpl in H.
    apply createMarketSale_Ok in H as (c & c' & _ & _ & _ & _ & _ & _ & Hle & _ & _ & ->).
    by eapply step_sale.
  - injection H as <-. by apply step_none.
Qed.

Lemma exec_ledger_step w c : wf_call c = true -> ledger_step w (exec w c).
Proof.
  intros Hwf. unfold exec. destruct (call w c) as [w'|f] eqn:E.
  - by eapply call_ledger_step.
  - by apply step_none.
Qed.

(** ** The table of allocated records *)

Lemma getItem_insert w w' id x k :
  marketItemIdToMarketItem w' = <[id := x]> (marketItemIdToMarketItem w) ->
  getItem w' k = if decide (id = k) then x else getItem w k.
Proof.
  intros E. unfold getItem. rewrite E, lookup_insert.
  by destruct (decide (id = k)).
Qed.

Lemma length_table w : length (table w) = Z.to_nat (_marketItemIdCounter w).
Proof. unfold table. by rewrite length_fmap, length_seqZ. Qed.

Lemma table_lookup w (i : nat) :
  Z.of_nat i < _marketItemIdCounter w ->
  table w !! i = Some (getItem w (1 + Z.of_nat i)).
Proof.
  intros Hi. unfold table. rewrite list_lookup_fmap, lookup_seqZ_lt by done. done.
Qed.

Lemma elem_of_table w it :
  it ∈ table w <-> exists k, allocated w k /\ it = getItem w k.
Proof.
  unfold table, allocated. rewrite list_elem_of_fmap. split.
  - intros (k & -> & Hk). apply elem_of_seqZ in Hk. exists k. split; [lia|done].
  - intros (k & Hk & ->). exists k. split; [done|]. apply elem_of_seqZ. lia.
Qed.

Lemma table_ext w w' :
  _marketItemIdCounter w' = _marketItemIdCounter w ->
  (forall k, allocated w k -> getItem w' k = getItem w k) ->
  table w' = table w.
Proof.
  intros EC Hk. unfold table. rewrite EC.
  apply list_fmap_ext. intros i k Hi. apply lookup_seqZ in Hi as [-> ?].
  apply Hk. unfold allocated. lia.
Qed.

Lemma table_create w w' it :
  0 <= _marketItemIdCounter w ->
  _marketItemIdCounter w' = _marketItemIdCounter w + 1 ->
  marketItemIdToMarketItem w'
    = <[_marketItemIdCounter w + 1 := it]> (marketItemIdToMarketItem w) ->
  table w' = table w ++ [it].
Proof.
  intros H0 EC EI. unfold table. rewrite EC.
  replace (_marketItemIdCounter w + 1)
    with (Z.of_nat (S (Z.to_nat (_marketItemIdCounter w)))) at 1 by lia.
  rewrite seqZ_S, fmap_app, Z2Nat.id by done. simpl.
  rewrite (getItem_insert w w' _ it) by (rewrite EI; f_equal; lia).
  rewrite decide_True by lia. f_equal.
  apply list_fmap_ext. intros i k Hi. apply lookup_seqZ in Hi as [-> ?].
  rewrite (getItem_insert w w' _ it) by done. rewrite decide_False by lia. done.
Qed.

Lemma table_update w w' id x :
  _marketItemIdCounter w' = _marketItemIdCounter w ->
  marketItemIdToMarketItem w' = <[id := x]> (marketItemIdToMarketItem w) ->
  table w' = if decide (allocated w id) then <[Z.to_nat (id - 1) := x]> (table w)
             else table w.
Proof.
  intros EC EI. destruct (decide (allocated w id)) as [Ha|Ha].
  - unfold allocated in Ha. apply list_eq. intros i.
    destruct (decide (Z.of_nat i < _marketItemIdCounter w)) as [Hi|Hi].
    + rewrite table_lookup by lia.
      rewrite (getItem_insert w w' id x) by done.
      destruct (decide (id = 1 + Z.of_nat i)) as [->|Hne].
      * replace (Z.to_nat (1 + Z.of_nat i - 1)) with i by lia.
        rewrite list_lookup_insert_eq; [done|]. rewrite length_table. lia.
      * rewrite list_lookup_insert_ne by lia. by rewrite table_lookup.
    + rewrite !lookup_ge_None_2; [done | |].
      * rewrite length_insert, length_table. lia.
      * rewrite length_table. lia.
  - apply table_ext; [done|]. intros k Hk.
    rewrite (getItem_insert w w' id x) by done.
    rewrite decide_False; [done|]. intros ->. done.
Qed.

Lemma filter_insert_length {A} (P : A -> Prop) `{!forall x, Decision (P x)}
    (l : list A) (i : nat) (x y : A) :
  l !! i = Some x ->
  (length (filter P (<[i := y]> l)) + (if decide (P x) then 1 else 0)
   = length (filter P l) + (if decide (P y) then 1 else 0))%nat.
Proof.
  intros Hx. pose proof (lookup_lt_Some _ _ _ Hx) as Hlt.
  rewrite insert_take_drop by done.
  rewrite <- (take_drop_middle l i x Hx) at 3.
  rewrite !filter_app, !filter_cons, !length_app.
  destruct (decide (P x)), (decide (P y)); simpl; lia.
Qed.

Lemma zero_owner_count_create w w' it :
  0 <= _marketItemIdCounter w ->
  _marketItemIdCounter w' = _marketItemIdCounter w + 1 ->
  marketItemIdToMarketItem w'
    = <[_marketItemIdCounter w + 1 := it]> (marketItemIdToMarketItem w) ->
  owner it = zero_address ->
  zero_owner_count w' = zero_owner_count w + 1.
Proof.
  intros H0 EC EI Ho. unfold zero_owner_count, available.
  rewrite (table_create w w' it) by done.
  rewrite filter_app, length_app, filter_cons_True by done. simpl. lia.
Qed.

Lemma zero_owner_count_update w w' id x :
  _marketItemIdCounter w' = _marketItemIdCounter w ->
  marketItemIdToMarketItem w' = <[id := x]> (marketItemIdToMarketItem w) ->
  owner x ≠ zero_address ->
  zero_owner_count w'
  = zero_owner_count w
    - (if decide (allocated w id /\ owner (getItem w id) = zero_address) then 1 else 0).
Proof.
  intros EC EI Hx. unfold zero_owner_count, available.
  rewrite (table_update w w' id x) by done.
  destruct (decide (allocated w id)) as [Ha|Ha].
  - assert (Hl : table w !! Z.to_nat (id - 1) = Some (getItem w id)).
    { unfold allocated in Ha. rewrite table_lookup by lia. f_equal. f_equal. lia. }
    pose proof (filter_insert_length zero_owner (table w) _ _ x Hl) as Hf.
    rewrite (decide_False (P := zero_owner x)) in Hf by done.
    unfold zero_owner in Hf at 2.
    destruct (decide (owner (getItem w id) = zero_address)).
    + rewrite decide_True by done. lia.
    + rewrite decide_False by tauto. lia.
  - rewrite decide_False by tauto. lia.
Qed.

(** ** The storage invariant *)

Lemma ledger_inv_init deployer self b r cs :
  ledger_inv (constructor deployer self b r cs).
Proof.
  split; simpl; try (unfold MAX_UINT256; lia).
  - unfold allocated; simpl. intros; lia.
  - unfold allocated; simpl. intros; lia.
  - intros k _. unfold getItem; simpl. by rewrite lookup_empty.
  - intros k. unfold getItem; simpl. by rewrite lookup_empty.
  - unfold zero_owner_count. lia.
Qed.

Lemma zero_owner_count_same w w' :
  same_storage w w' -> zero_owner_count w' = zero_owner_count w.
Proof.
  intros (EC & _ & _ & EI). unfold zero_owner_count, available.
  rewrite (table_ext w w'); [done..|]. intros k _. by apply getItem_ext.
Qed.

Lemma ledger_inv_step w w' : ledger_step w w' -> ledger_inv w -> ledger_inv w'.
Proof.
  intros Hstep [HC HS HK Hst Hte Hph Htk Hct].
  destruct Hstep as
    [(EC & ES & EK & EI)
    | it EC Hle ES EK EI Hid Htok Hsel Hown Hsold Hcan
    | id buyer Hb EC ES Hle EK EI
    | id caller Hb Htid Hsel EC ES EK Hle EI].
  - (* nothing written *)
    pose proof (getItem_ext w w' EI) as Eg.
    split; unfold allocated in *; rewrite ?EC, ?ES, ?EK, ?EI; try done.
    + intros k Hk. rewrite Eg. by apply Hst.
    + intros k Hk. rewrite Eg. by apply Hte.
    + intros k Hk. rewrite Eg. by apply Hph.
    + intros k. by rewrite Eg.
    + rewrite (zero_owner_count_same w w'); done.
  - (* a record allocated *)
    pose proof (fun k => getItem_insert w w' _ it k EI) as Eg.
    split; unfold allocated in *; rewrite ?EC, ?ES, ?EK; try lia.
    + intros k Hk. rewrite Eg, EI, lookup_insert.
      destruct (decide (_marketItemIdCounter w + 1 = k)) as [<-|Hne]; [done|].
      apply Hst. lia.
    + intros k Hk. rewrite Eg.
      destruct (decide (_marketItemIdCounter w + 1 = k)) as [<-|Hne]; [done|].
      apply Hte. lia.
    + intros k Hk. rewrite Eg, decide_False by lia. apply Hph. lia.
    + intros k. rewrite Eg. by case_decide.
    + rewrite (zero_owner_count_create w w' it) by (done || lia). lia.
  - (* a record marked sold *)
    set (x := with_sold true (with_owner buyer (getItem w id))) in *.
    pose proof (fun k => getItem_insert w w' _ x k EI) as Eg.
    split; unfold allocated in *; rewrite ?EC, ?ES, ?EK; try lia.
    + intros k Hk. rewrite Eg, EI, lookup_insert.
      destruct (decide (id = k)) as [->|Hne]; [|by apply Hst].
      destruct (Hst k Hk) as (_ & ? & ?). done.
    + intros k Hk. rewrite Eg.
      destruct (decide (id = k)) as [->|Hne]; [|by apply Hte].
      simpl. split; [done|]. by intros [? _].
    + intros k Hk. rewrite Eg.
      destruct (decide (id = k)) as [->|Hne]; [|by apply Hph].
      simpl. by apply Hph.
    + intros k. rewrite Eg. case_decide; [apply Htk | done].
    + rewrite (zero_owner_count_update w w' id x) by done.
      case_decide; lia.
  - (* a record marked canceled *)
    set (x := with_canceled true (with_owner caller (getItem w id))) in *.
    pose proof (fun k => getItem_insert w w' _ x k EI) as Eg.
    assert (Hx : owner x ≠ zero_address) by done.
    split; unfold allocated in *; rewrite ?EC, ?ES, ?EK; try lia.
    + intros k Hk. rewrite Eg, EI, lookup_insert.
      destruct (decide (id = k)) as [->|Hne]; [|by apply Hst].
      destruct (Hst k Hk) as (_ & ? & ?). done.
    + intros k Hk. rewrite Eg.
      destruct (decide (id = k)) as [->|Hne]; [|by apply Hte].
      simpl. split; [done|]. by intros [_ ?].
    + intros k Hk. rewrite Eg.
      destruct (decide (id = k)) as [->|Hne]; [|by apply Hph].
      simpl. by apply Hph.
    + intros k. rewrite Eg. case_decide; [apply Htk | done].
    + rewrite (zero_owner_count_update w w' id x) by done.
      case_decide; lia.
Qed.

Lemma reachable_inv w : reachable w -> ledger_inv w.
Proof.
  induction 1 as [d s b r cs | w c _ IH Hwf].
  - apply ledger_inv_init.
  - eapply ledger_inv_step; [by apply exec_ledger_step | done].
Qed.

(** ** The scans *)

Lemma seqZ_succ m (n : nat) :
  seqZ m (Z.of_nat (S n)) = m :: seqZ (m + 1) (Z.of_nat n).
Proof.
  rewrite seqZ_cons by lia. f_equal. f_equal; lia.
Qed.

(** The scan of [fetchAvailableMarketItems] over ids [i+1 .. i+n], entered
    with [filled] already written and [k] free slots: it appends the matches
    when they fit and panics when they do not. *)
Lemma available_loop_spec w (n : nat) :
  forall (i : Z) (filled : list MarketItem) (k : nat),
    let m := filter zero_owner (getItem w <$> seqZ (i + 1) (Z.of_nat n)) in
    available_loop w n i (filled ++ replicate k emptyMarketItem) (length filled)
    = if decide (length m <= k)%nat
      then Ok (filled ++ m ++ replicate (k - length m) emptyMarketItem)
      else Revert (Panic 50).
Proof.
  induction n as [|n IH]; intros i filled k; cbn zeta.
  - cbn [available_loop]. rewrite seqZ_nil by lia. cbn [fmap list_fmap].
    rewrite filter_nil. cbn [length app].
    rewrite decide_True by lia. by rewrite Nat.sub_0_r.
  - rewrite seqZ_succ, fmap_cons. cbn [available_loop].
    destruct (decide (zero_owner (getItem w (i + 1)))) as [Ho|Ho].
    + rewrite filter_cons_True by done.
      rewrite bool_decide_eq_true_2 by done. cbn [negb].
      destruct k as [|k].
      * rewrite bool_decide_eq_false_2 by (rewrite length_app; simpl; lia).
        rewrite decide_False by (simpl; lia). done.
      * rewrite bool_decide_eq_true_2 by (rewrite length_app; simpl; lia).
        cbn [replicate].
        replace (length filled) with (length filled + 0)%nat at 1 by lia.
        rewrite insert_app_r. cbn [insert list_insert].
        specialize (IH (i + 1) (filled ++ [getItem w (i + 1)]) k).
        cbn zeta in IH. rewrite <- !(assoc_L (++)) in IH. cbn [app] in IH.
        rewrite length_app in IH. cbn [length] in IH.
        replace (S (length filled)) with (length filled + 1)%nat by lia.
        rewrite IH. cbn [length].
        destruct (decide (length (filter zero_owner
                    (getItem w <$> seqZ (i + 1 + 1) (Z.of_nat n))) <= k)%nat).
        -- rewrite decide_True by lia. done.
        -- rewrite decide_False by lia. done.
    + rewrite filter_cons_False by done.
      rewrite bool_decide_eq_false_2 by done. cbn [negb]. apply IH.
Qed.

Lemma fetchAvailableMarketItems_counted w :
  0 <= _marketItemIdCounter w ->
  _marketItemIdCounter w - _tokensSoldCounter w - _tokensCanceledCounter w
    = zero_owner_count w ->
  _tokensSoldCounter w <= _marketItemIdCounter w ->
  fetchAvailableMarketItems w = Ok (available w).
Proof.
  intros HC Hcnt HS. unfold fetchAvailableMarketItems, checked_sub.
  rewrite (proj2 (Z.leb_le _ _)) by done. cbn [mbind result_bind].
  rewrite (proj2 (Z.leb_le _ _)) by (unfold zero_owner_count in Hcnt; lia).
  cbn [mbind result_bind].
  pose proof (available_loop_spec w (Z.to_nat (_marketItemIdCounter w)) 0 []
                (Z.to_nat (zero_owner_count w))) as Hl.
  cbn zeta in Hl. rewrite Z2Nat.id in Hl by done.
  change (0 + 1) with 1 in Hl. fold (table w) in Hl. fold (available w) in Hl.
  rewrite Hcnt. cbn [app length] in Hl. rewrite Hl.
  unfold zero_owner_count. rewrite Nat2Z.id, decide_True by lia.
  rewrite Nat.sub_diag. cbn [replicate]. by rewrite app_nil_r.
Qed.

(** ** Valid traces keep the counters exact *)

Lemma live_inv w id :
  ledger_inv w -> live w id = true ->
  allocated w id /\ owner (getItem w id) = zero_address.
Proof.
  intros Hinv Hl. unfold live in Hl.
  apply andb_true_iff in Hl as [Hl Hc]. apply andb_true_iff in Hl as [Hl Hs].
  apply andb_true_iff in Hl as [H1 H2].
  apply Z.leb_le in H1, H2. apply negb_true_iff in Hs, Hc.
  assert (Ha : allocated w id) by done.
  split; [done|]. by apply (inv_terminal w Hinv id Ha).
Qed.

Lemma call_counted w c w' :
  ledger_inv w -> counted w -> valid_call w c = true -> call w c = Ok w' ->
  counted w'.
Proof.
  intros Hinv Hcnt Hv H. unfold counted in *.
  apply andb_true_iff in Hv as [Hwf Hv].
  unfold is_revert in Hv. rewrite H in Hv. cbn [is_ok negb orb] in Hv.
  destruct c as [msg nft tid p | msg nft id | msg nft id | b r cs]; simpl in H, Hv.
  - inv_bind H. destruct a as [id w1]. injection H as <-.
    apply createMarketItem_Ok in E as (c & c' & _ & _ & _ & -> & Hle & _ & _ & ->).
    erewrite (zero_owner_count_create w);
      [ | apply (inv_counter w Hinv) | reflexivity | reflexivity | reflexivity ].
    simpl. lia.
  - apply wf_cancel in Hwf.
    apply cancelMarketItem_Ok in H as (c & c' & _ & _ & _ & _ & _ & ->).
    destruct (live_inv w id Hinv Hv) as [Ha Ho].
    erewrite (zero_owner_count_update w); [ | reflexivity | reflexivity | done ].
    rewrite decide_True by done. simpl. lia.
  - apply wf_sale in Hwf.
    apply createMarketSale_Ok in H as (c & c' & _ & _ & _ & _ & _ & _ & _ & _ & _ & ->).
    destruct (live_inv w id Hinv Hv) as [Ha Ho].
    erewrite (zero_owner_count_update w); [ | reflexivity | reflexivity | done ].
    rewrite decide_True by done. simpl. lia.
  - injection H as <-. by rewrite (zero_owner_count_same w).
Qed.

Lemma valid_call_wf w c : valid_call w c = true -> wf_call c = true.
Proof. unfold valid_call. by intros [? _]%andb_true_iff. Qed.

Lemma exec_counted w c :
  ledger_inv w -> counted w -> valid_call w c = true ->
  ledger_inv (exec w c) /\ counted (exec w c).
Proof.
  intros Hinv Hcnt Hv. split.
  - eapply ledger_inv_step; [|done]. apply exec_ledger_step. by eapply valid_call_wf.
  - unfold exec. destruct (call w c) as [w'|] eqn:E; [|done].
    by eapply call_counted.
Qed.

Lemma valid_trace_counted cs :
  forall w, ledger_inv w -> counted w -> valid_trace w cs = true ->
  ledger_inv (run w cs) /\ counted (run w cs).
Proof.
  induction cs as [|c cs IH]; intros w Hinv Hcnt Hv; [done|].
  cbn [valid_trace] in Hv. apply andb_true_iff in Hv as [Hc Hv].
  destruct (exec_counted w c Hinv Hcnt Hc) as [Hinv' Hcnt'].
  unfold run; cbn [foldl]. by apply IH.
Qed.

Lemma StronglySorted_seqZ m (n : nat) : StronglySorted Z.lt (seqZ m (Z.of_nat n)).
Proof.
  revert m. induction n as [|n IH]; intros m.
  - rewrite seqZ_nil by lia. constructor.
  - rewrite seqZ_succ. constructor; [apply IH|].
    apply Forall_seqZ. lia.
Qed.

Lemma StronglySorted_fmap_filter {A} (P : A -> Prop) `{!forall x, Decision (P x)}
    (f : A -> Z) (l : list A) :
  StronglySorted Z.lt (f <$> l) -> StronglySorted Z.lt (f <$> filter P l).
Proof.
  induction l as [|x l IH]; [done|].
  rewrite fmap_cons, StronglySorted_cons. intros [Hall Hs].
  rewrite filter_cons. destruct (decide (P x)); [|by apply IH].
  rewrite fmap_cons. apply StronglySorted_cons. split; [|by apply IH].
  rewrite Forall_fmap in *. rewrite Forall_forall in *.
  intros y Hy. apply Hall. by apply list_elem_of_filter in Hy as [_ ?].
Qed.

Lemma table_ids w : ledger_inv w -> marketItemId <$> table w = seqZ 1 (_marketItemIdCounter w).
Proof.
  intros Hinv. unfold table. rewrite <- list_fmap_compose.
  rewrite <- (list_fmap_id (seqZ 1 _)) at 2.
  apply list_fmap_ext. intros i k Hk. apply lookup_seqZ in Hk as [-> Hi]. simpl.
  apply (inv_stored w Hinv). unfold allocated. lia.
Qed.

Lemma available_sorted w :
  ledger_inv w -> StronglySorted Z.lt (marketItemId <$> available w).
Proof.
  intros Hinv. unfold available. apply StronglySorted_fmap_filter.
  rewrite table_ids by done.
  rewrite <- (Z2Nat.id (_marketItemIdCounter w)) by apply (inv_counter w Hinv).
  apply StronglySorted_seqZ.
Qed.

Lemma counted_init deployer self b r cs : counted (constructor deployer self b r cs).
Proof. reflexivity. Qed.

(** ** Available items *)

(** C1. After any sequence of valid operations from deployment (every sale
    or cancellation that goes through is of an allocated item neither sold
    nor canceled before), [fetchAvailableMarketItems] returns: its result is
    exactly the allocated records whose owner is the zero address, in
    ascending [marketItemId] order, and its length is the created counter
    minus the sold counter minus the canceled counter. *)
Theorem fetchAvailableMarketItems_valid_trace
    (deployer self : address) (b : gmap address Z) (r : gset address)
    (cols : gmap address Collection) (cs : list Call) :
  valid_trace (constructor deployer self b r cols) cs = true ->
  let w := run (constructor deployer self b r cols) cs in
  exists l,
    fetchAvailableMarketItems w = Ok l
    /\ l = filter zero_owner (getItem w <$> seqZ 1 (_marketItemIdCounter w))
    /\ (forall it, it ∈ l <->
          exists k, 1 <= k <= _marketItemIdCounter w /\ it = getItem w k
                    /\ marketItemId it = k /\ owner it = zero_address)
    /\ StronglySorted Z.lt (marketItemId <$> l)
    /\ Z.of_nat (length l)
       = _marketItemIdCounter w - _tokensSoldCounter w - _tokensCanceledCounter w.
Proof.
  intros Hv w.
  destruct (valid_trace_counted cs _ (ledger_inv_init deployer self b r cols)
              (counted_init deployer self b r cols) Hv) as [Hinv Hcnt].
  fold w in Hinv, Hcnt. exists (available w).
  pose proof (inv_counter w Hinv) as HC. pose proof (inv_canceled w Hinv) as HK.
  assert (Hz : 0 <= zero_owner_count w) by (unfold zero_owner_count; lia).
  split; [|split; [|split; [|split]]].
  - apply fetchAvailableMarketItems_counted; [lia | done | unfold counted in Hcnt; lia].
  - done.
  - intros it. unfold available. rewrite list_elem_of_filter, elem_of_table.
    unfold zero_owner, allocated. split.
    + intros (Ho & k & Hk & ->). exists k. repeat split; try done; try lia.
      by apply (inv_stored w Hinv).
    + intros (k & Hk & -> & _ & Ho). split; [done|]. by exists k.
  - by apply available_sorted.
  - by rewrite Hcnt.
Qed.

Lemma fetchAvailableMarketItems_valid_trace_witness :
  let w := run Scenario.w0 Scenario.history in
  exists l,
    fetchAvailableMarketItems w = Ok l
    /\ l = filter zero_owner (getItem w <$> seqZ 1 (_marketItemIdCounter w))
    /\ (forall it, it ∈ l <->
          exists k, 1 <= k <= _marketItemIdCounter w /\ it = getItem w k
                    /\ marketItemId it = k /\ owner it = zero_address)
    /\ StronglySorted Z.lt (marketItemId <$> l)
    /\ Z.of_nat (length l)
       = _marketItemIdCounter w - _tokensSoldCounter w - _tokensCanceledCounter w.
Proof.
  apply (fetchAvailableMarketItems_valid_trace Scenario.deployer Scenario.market
           Scenario.funds ∅
           {[ Scenario.art := Scenario.art0; Scenario.prints := Scenario.prints0 ]}).
  vm_compute. reflexivity.
Defined.

(** ** When the calls go through *)

Lemma require_true msg : require true msg = Ok tt.
Proof. reflexivity. Qed.

Lemma receive_value_eq w msg :
  0 <= value msg <= balanceOf w (sender msg) ->
  receive_value w msg = Ok (move (sender msg) (this w) (value msg) w).
Proof.
  intros [H1 H2]. unfold receive_value.
  by rewrite (proj2 (Z.leb_le _ _) H1), (proj2 (Z.leb_le _ _) H2).
Qed.

Lemma transfer_eq w to amount :
  amount <= balanceOf w (this w) -> to ∉ refusesEther w ->
  transfer w to amount = Ok (move (this w) to amount w).
Proof.
  intros H1 H2. unfold transfer.
  by rewrite (proj2 (Z.leb_le _ _) H1), bool_decide_eq_false_2.
Qed.

Lemma token_transfer_ok_spec w nft from to tid :
  token_transfer_ok w nft from to tid = true <->
  exists c c', collections w !! nft = Some c
               /\ transferFrom c (this w) from to tid = Ok c'.
Proof.
  unfold token_transfer_ok. split.
  - destruct (collections w !! nft) as [c|]; [|done].
    destruct (transferFrom c (this w) from to tid) as [c'|] eqn:E; [|done]. eauto.
  - intros (c & c' & -> & ->). done.
Qed.

Lemma call_transferFrom_eq w nft from to tid c c' :
  collections w !! nft = Some c ->
  transferFrom c (this w) from to tid = Ok c' ->
  call_transferFrom w nft from to tid = Ok (set_collection nft c' w).
Proof. unfold call_transferFrom. by intros -> ->. Qed.

Lemma checked_add_eq a b : a + b <= MAX_UINT256 -> checked_add a b = Ok (a + b).
Proof. intros H. unfold checked_add. by rewrite (proj2 (Z.leb_le _ _) H). Qed.

Lemma is_ok_true {A} (r : result A) : is_ok r = true <-> exists a, r = Ok a.
Proof. destruct r; simpl; split; eauto; try done. by intros [? ?]. Qed.

Lemma is_revert_true {A} (r : result A) : is_revert r = true <-> is_ok r = false.
Proof. unfold is_revert. by rewrite negb_true_iff. Qed.

Lemma createMarketSale_accepts w msg nft id :
  value msg = price (getItem w id) ->
  sale_transfers_ok w msg nft id = true ->
  is_ok (createMarketSale w msg nft id) = true.
Proof.
  intros Hp Ht. unfold sale_transfers_ok in Ht.
  repeat (let H := fresh "G" in apply andb_true_iff in Ht as [Ht H]).
  apply Z.leb_le in Ht, G5, G4, G1, G0.
  apply negb_true_iff, bool_decide_eq_false in G3, G.
  apply token_transfer_ok_spec in G2 as (c & c' & Hc & Htr).
  unfold createMarketSale.
  rewrite receive_value_eq by done. cbn [mbind result_bind].
  autorewrite with state.
  rewrite (proj2 (Z.eqb_eq _ _) Hp), require_true. cbn [mbind result_bind].
  rewrite transfer_eq by (autorewrite with state; done). cbn [mbind result_bind].
  erewrite call_transferFrom_eq; [|exact Hc|exact Htr]. cbn [mbind result_bind].
  rewrite checked_add_eq by done. cbn [mbind result_bind].
  rewrite transfer_eq by (autorewrite with state; done).
  done.
Qed.

Lemma createMarketSale_is_ok w msg nft id :
  is_ok (createMarketSale w msg nft id) = true <->
  value msg = price (getItem w id) /\ sale_transfers_ok w msg nft id = true.
Proof.
  split.
  - intros (w' & H)%is_ok_true.
    apply createMarketSale_Ok in H
      as (c & c' & Hv & Hp & Hb1 & Hr1 & Hc & Htr & Hle & Hb2 & Hr2 & _).
    split; [done|]. unfold sale_transfers_ok, token_transfer_ok. rewrite Hc, Htr.
    rewrite !andb_true_iff, !Z.leb_le, !negb_true_iff, !bool_decide_eq_false.
    repeat split; (done || lia).
  - intros [? ?]. by apply createMarketSale_accepts.
Qed.

Lemma createMarketSale_balances w msg nft id w' :
  createMarketSale w msg nft id = Ok w' ->
  forall a,
    balanceOf w' a
    = balanceOf w a
      - ind (a = sender msg) * value msg
      + ind (a = seller (getItem w id)) * value msg
      + ind (a = contractOwner w) * listingFee w
      - ind (a = this w) * listingFee w.
Proof.
  intros H a.
  apply createMarketSale_Ok in H as (c & c' & _ & _ & _ & _ & _ & _ & _ & _ & _ & ->).
  repeat (autorewrite with state; rewrite ?balanceOf_move).
  unfold ind. repeat case_decide; lia.
Qed.

Lemma exec_revert_unchanged w c : is_revert (call w c) = true -> exec w c = w.
Proof.
  unfold exec, is_revert. by destruct (call w c).
Qed.

(** C2 (as amended). [createMarketSale] rejects, leaving the state as it
    was, exactly when the payment differs from the stored price or one of
    the transfers it makes fails ([sale_transfers_ok]); it makes no check of
    its own on the sold and canceled flags or on the caller, so a call on an
    item already sold, with payment equal to the price and the transfers
    going through, returns and pays the stored seller again. *)
Theorem createMarketSale_rejects_iff (w : State) (msg : Msg) (nft : address) (id : Z) :
  (is_revert (createMarketSale w msg nft id) = true <->
     value msg ≠ price (getItem w id) \/ sale_transfers_ok w msg nft id = false)
  /\ (is_revert (createMarketSale w msg nft id) = true ->
        exec w (CreateMarketSale msg nft id) = w)
  /\ (sold (getItem w id) = true ->
      value msg = price (getItem w id) ->
      sale_transfers_ok w msg nft id = true ->
      exists w',
        createMarketSale w msg nft id = Ok w'
        /\ _tokensSoldCounter w' = _tokensSoldCounter w + 1
        /\ owner (getItem w' id) = sender msg
        /\ forall a,
             balanceOf w' a
             = balanceOf w a
               - ind (a = sender msg) * price (getItem w id)
               + ind (a = seller (getItem w id)) * price (getItem w id)
               + ind (a = contractOwner w) * listingFee w
               - ind (a = this w) * listingFee w).
Proof.
  split; [|split].
  - rewrite is_revert_true, <- not_true_iff_false, createMarketSale_is_ok.
    rewrite <- (not_true_iff_false (sale_transfers_ok _ _ _ _)).
    destruct (decide (value msg = price (getItem w id)));
      destruct (sale_transfers_ok w msg nft id); intuition congruence.
  - intros H. by apply exec_revert_unchanged.
  - intros _ Hp Ht.
    pose proof (proj2 (createMarketSale_is_ok w msg nft id) (conj Hp Ht)) as Hok.
    apply is_ok_true in Hok as [w' Hw']. exists w'. split; [done|].
    pose proof (createMarketSale_balances w msg nft id w' Hw') as Hb.
    apply createMarketSale_Ok in Hw'
      as (c & c' & _ & _ & _ & _ & _ & _ & _ & _ & _ & ->).
    autorewrite with state. split; [done|]. split; [done|].
    intros a. rewrite <- Hp. apply Hb.
Qed.

Lemma createMarketSale_rejects_iff_witness :
  exists w',
    createMarketSale Scenario.w3 (mkMsg Scenario.carol 100) Scenario.art 1 = Ok w'
    /\ _tokensSoldCounter w' = _tokensSoldCounter Scenario.w3 + 1
    /\ owner (getItem w' 1) = Scenario.carol
    /\ forall a,
         balanceOf w' a
         = balanceOf Scenario.w3 a
           - ind (a = Scenario.carol) * price (getItem Scenario.w3 1)
           + ind (a = seller (getItem Scenario.w3 1)) * price (getItem Scenario.w3 1)
           + ind (a = contractOwner Scenario.w3) * listingFee Scenario.w3
           - ind (a = this Scenario.w3) * listingFee Scenario.w3.
Proof.
  apply (createMarketSale_rejects_iff Scenario.w3 (mkMsg Scenario.carol 100)
           Scenario.art 1); vm_compute; reflexivity.
Defined.

(** The claim of C2 as it was stated fails: carol offers exactly the price of
    item 1 after bob has bought it, and the call is rejected, the ledger no
    longer holding the token. *)
Lemma createMarketSale_rejects_exact_payment :
  ~ (is_revert (createMarketSale Scenario.w2 (mkMsg Scenario.carol 100)
                  Scenario.art 1) = true
     <-> value (mkMsg Scenario.carol 100) ≠ price (getItem Scenario.w2 1)).
Proof.
  intros [H _]. apply H; vm_compute; reflexivity.
Qed.

(** C5. A [createMarketSale] that returns was paid exactly the stored price;
    it sets the item's owner to the buyer and its sold flag, adds one to the
    sold counter, credits the stored seller with the price and the fee
    beneficiary with the listing fee (debiting the buyer and the contract's
    balance), and the buyer holds the token afterwards. *)
Theorem createMarketSale_effects (w : State) (msg : Msg) (nft : address) (id : Z)
    (w' : State) :
  createMarketSale w msg nft id = Ok w' ->
  value msg = price (getItem w id)
  /\ getItem w' id = with_sold true (with_owner (sender msg) (getItem w id))
  /\ owner (getItem w' id) = sender msg
  /\ sold (getItem w' id) = true
  /\ seller (getItem w' id) = seller (getItem w id)
  /\ _tokensSoldCounter w' = _tokensSoldCounter w + 1
  /\ _marketItemIdCounter w' = _marketItemIdCounter w
  /\ _tokensCanceledCounter w' = _tokensCanceledCounter w
  /\ (forall a,
        balanceOf w' a
        = balanceOf w a
          - ind (a = sender msg) * price (getItem w id)
          + ind (a = seller (getItem w id)) * price (getItem w id)
          + ind (a = contractOwner w) * listingFee w
          - ind (a = this w) * listingFee w)
  /\ (exists c, collections w' !! nft = Some c
                /\ holders c !! tokenId (getItem w id) = Some (sender msg)).
Proof.
  intros H. pose proof (createMarketSale_balances w msg nft id w' H) as Hb.
  apply createMarketSale_Ok in H
    as (c & c' & _ & Hp & _ & _ & _ & Htr & _ & _ & _ & ->).
  autorewrite with state. repeat split; try done.
  - intros a. rewrite <- Hp. apply Hb.
  - exists c'. split; [simpl; apply lookup_insert_eq|].
    by apply transferFrom_Ok in Htr as (_ & _ & _ & ?).
Qed.

Lemma createMarketSale_effects_witness :
  value (mkMsg Scenario.bob 100) = price (getItem Scenario.w1 1)
  /\ getItem Scenario.w2 1
     = with_sold true (with_owner Scenario.bob (getItem Scenario.w1 1))
  /\ owner (getItem Scenario.w2 1) = Scenario.bob
  /\ sold (getItem Scenario.w2 1) = true
  /\ seller (getItem Scenario.w2 1) = seller (getItem Scenario.w1 1)
  /\ _tokensSoldCounter Scenario.w2 = _tokensSoldCounter Scenario.w1 + 1
  /\ _marketItemIdCounter Scenario.w2 = _marketItemIdCounter Scenario.w1
  /\ _tokensCanceledCounter Scenario.w2 = _tokensCanceledCounter Scenario.w1
  /\ (forall a,
        balanceOf Scenario.w2 a
        = balanceOf Scenario.w1 a
          - ind (a = Scenario.bob) * price (getItem Scenario.w1 1)
          + ind (a = seller (getItem Scenario.w1 1)) * price (getItem Scenario.w1 1)
          + ind (a = contractOwner Scenario.w1) * listingFee Scenario.w1
          - ind (a = this Scenario.w1) * listingFee Scenario.w1)
  /\ (exists c, collections Scenario.w2 !! Scenario.art = Some c
                /\ holders c !! tokenId (getItem Scenario.w1 1) = Some Scenario.bob).
Proof.
  apply (createMarketSale_effects Scenario.w1 (mkMsg Scenario.bob 100)
           Scenario.art 1 Scenario.w2).
  vm_compute. reflexivity.
Defined.

Lemma cancelMarketItem_is_ok w msg nft id :
  is_ok (cancelMarketItem w msg nft id) = true <->
  value msg = 0
  /\ 0 < tokenId (getItem w id) /\ seller (getItem w id) = sender msg
  /\ cancel_transfer_ok w (sender msg) nft id = true.
Proof.
  split.
  - intros (w' & H)%is_ok_true.
    pose proof (cancelMarketItem_value _ _ _ _ _ H) as Hv.
    apply cancelMarketItem_Ok in H as (c & c' & Ht & Hs & Hc & Htr & Hle & _).
    split; [done|]. split; [done|]. split; [done|].
    unfold cancel_transfer_ok, token_transfer_ok. rewrite Hc, Htr. simpl.
    by apply Z.leb_le.
  - intros (Hv & Ht & Hs & Hok). unfold cancel_transfer_ok in Hok.
    apply andb_true_iff in Hok as [Htr Hle]. apply Z.leb_le in Hle.
    apply token_transfer_ok_spec in Htr as (c & c' & Hc & Htr).
    unfold cancelMarketItem.
    rewrite (nonpayable_zero _ Hv). cbn [mbind result_bind].
    rewrite (proj2 (Z.ltb_lt _ _) Ht), require_true. cbn [mbind result_bind].
    rewrite bool_decide_eq_true_2, require_true by done. cbn [mbind result_bind].
    erewrite call_transferFrom_eq; [|exact Hc|exact Htr]. cbn [mbind result_bind].
    rewrite checked_add_eq by done. done.
Qed.

(** What [fetchAvailableMarketItems] can return at all: zero-owner records
    of the table, padded with empty records. *)
Lemma fetchAvailableMarketItems_elements w l :
  0 <= _marketItemIdCounter w ->
  fetchAvailableMarketItems w = Ok l ->
  forall it, it ∈ l -> it = emptyMarketItem \/ it ∈ available w.
Proof.
  intros HC H it Hit. unfold fetchAvailableMarketItems in H. inv_bind H.
  pose proof (available_loop_spec w (Z.to_nat (_marketItemIdCounter w)) 0 []
                (Z.to_nat a0)) as Hl.
  cbn zeta in Hl. rewrite Z2Nat.id in Hl by done.
  change (0 + 1) with 1 in Hl. fold (table w) in Hl. fold (available w) in Hl.
  cbn [app length] in Hl. rewrite Hl in H. case_decide; [|done].
  injection H as <-. apply elem_of_app in Hit as [Hit|Hit]; [by right|].
  left. by apply elem_of_replicate in Hit as [? _].
Qed.

(** C6 (as amended). In a reachable state [cancelMarketItem] rejects every
    call that carries ether (the function is not payable), every call whose
    item does not exist (stored token id zero) and every call whose sender is
    not the stored seller; a call that names the item's own collection is
    rejected exactly in those cases or when that collection does not move the
    token from the ledger to the caller (or the canceled counter would
    overflow).  When the call returns, the item's owner is the caller, who is
    the stored seller, its canceled flag is set, the canceled counter has
    grown by exactly one, no record returned by [fetchAvailableMarketItems]
    carries the id, and, the call naming the item's own collection, the
    seller holds the item's token in it. *)
Theorem cancelMarketItem_rejects_iff (w : State) (msg : Msg) (nft : address) (id : Z) :
  reachable w ->
  (value msg ≠ 0 \/ tokenId (getItem w id) = 0 \/ seller (getItem w id) ≠ sender msg ->
     is_revert (cancelMarketItem w msg nft id) = true)
  /\ (nft = nftContractAddress (getItem w id) ->
      (is_revert (cancelMarketItem w msg nft id) = true <->
         value msg ≠ 0 \/ tokenId (getItem w id) = 0
         \/ seller (getItem w id) ≠ sender msg
         \/ cancel_transfer_ok w (sender msg) (nftContractAddress (getItem w id)) id
            = false))
  /\ (forall w',
        cancelMarketItem w msg nft id = Ok w' ->
        owner (getItem w' id) = sender msg
        /\ seller (getItem w' id) = sender msg
        /\ seller (getItem w id) = sender msg
        /\ canceled (getItem w' id) = true
        /\ _tokensCanceledCounter w' = _tokensCanceledCounter w + 1
        /\ _tokensSoldCounter w' = _tokensSoldCounter w
        /\ _marketItemIdCounter w' = _marketItemIdCounter w
        /\ (nft = nftContractAddress (getItem w id) ->
            exists c, collections w' !! nftContractAddress (getItem w id) = Some c
                      /\ holders c !! tokenId (getItem w id)
                         = Some (seller (getItem w id)))
        /\ (forall l, fetchAvailableMarketItems w' = Ok l ->
                      forall it, it ∈ l -> marketItemId it ≠ id)).
Proof.
  intros Hr. pose proof (reachable_inv w Hr) as Hinv.
  assert (Hiff : is_revert (cancelMarketItem w msg nft id) = true <->
            value msg ≠ 0 \/ tokenId (getItem w id) = 0
            \/ seller (getItem w id) ≠ sender msg
            \/ cancel_transfer_ok w (sender msg) nft id = false).
  { rewrite is_revert_true, <- not_true_iff_false, cancelMarketItem_is_ok.
    rewrite <- (not_true_iff_false (cancel_transfer_ok _ _ _ _)).
    pose proof (inv_tokenId w Hinv id).
    destruct (decide (value msg = 0));
      destruct (decide (seller (getItem w id) = sender msg));
      destruct (cancel_transfer_ok w (sender msg) nft id);
      destruct (decide (tokenId (getItem w id) = 0)); intuition (congruence || lia). }
  split; [|split].
  - intros H. apply Hiff. tauto.
  - intros ->. exact Hiff.
  - intros w' H.
    assert (Hinv' : ledger_inv w').
    { assert (Hc : sender msg ≠ zero_address).
      { apply cancelMarketItem_Ok in H as (_ & _ & Ht & Hs & _).
        destruct (decide (allocated w id)) as [Ha|Ha].
        - rewrite <- Hs. by apply (inv_stored w Hinv).
        - apply (inv_phantom w Hinv) in Ha as (_ & ? & _). lia. }
      apply (ledger_inv_step w); [|done].
      apply (call_ledger_step w (CancelMarketItem msg nft id)); [|done].
      simpl. rewrite bool_decide_eq_false_2 by done. simpl.
      rewrite (cancelMarketItem_value _ _ _ _ _ H). simpl.
      (* the id is that of an allocated record, hence in range *)
      apply cancelMarketItem_Ok in H as (_ & _ & Ht & _).
      destruct (decide (allocated w id)) as [Ha|Ha].
      - unfold allocated in Ha. pose proof (inv_counter w Hinv).
        unfold is_uint256. apply andb_true_iff. rewrite !Z.leb_le. lia.
      - apply (inv_phantom w Hinv) in Ha as (_ & ? & _). lia. }
    apply cancelMarketItem_Ok in H as (c & c' & Ht & Hs & Hc & Htr & Hle & ->).
    autorewrite with state in *. repeat split; try done.
    + intros ->. exists c'. split; [simpl; apply lookup_insert_eq|].
      rewrite Hs. by apply transferFrom_Ok in Htr as (_ & _ & _ & ?).
    + intros l Hl it Hit Hid.
      assert (Ha : allocated w id).
      { destruct (decide (allocated w id)) as [Ha|Ha]; [done|].
        apply (inv_phantom w Hinv) in Ha as (_ & ? & _). lia. }
      eapply fetchAvailableMarketItems_elements in Hit as [->|Hit];
        [ | | apply (inv_counter _ Hinv') | exact Hl ].
      * simpl in Hid. unfold allocated in Ha. lia.
      * unfold available in Hit. apply list_elem_of_filter in Hit as [Ho Hit].
        apply elem_of_table in Hit as (k & Hk & ->).
        pose proof (inv_stored _ Hinv' k Hk) as (_ & Hkid & _).
        rewrite Hkid in Hid. subst k. unfold zero_owner in Ho.
        autorewrite with state in Ho. simpl in Ho.
        destruct (inv_stored w Hinv id Ha) as (_ & _ & Hsel). congruence.
Qed.

Lemma reachable_run w cs :
  reachable w -> forallb wf_call cs = true -> reachable (run w cs).
Proof.
  revert w. induction cs as [|c cs IH]; intros w Hr Hwf; [done|].
  simpl in Hwf. apply andb_true_iff in Hwf as [Hc Hcs].
  unfold run; cbn [foldl]. apply IH; [|done]. by apply reachable_step.
Qed.

Lemma Scenario_reachable cs :
  forallb wf_call cs = true -> reachable (run Scenario.w0 cs).
Proof. intros H. apply reachable_run; [apply reachable_init | done]. Qed.

Lemma cancelMarketItem_rejects_iff_witness :
  (value (mkMsg Scenario.bob 0) ≠ 0 \/ tokenId (getItem Scenario.w4 3) = 0
   \/ seller (getItem Scenario.w4 3) ≠ sender (mkMsg Scenario.bob 0) ->
     is_revert (cancelMarketItem Scenario.w4 (mkMsg Scenario.bob 0) Scenario.art 3)
     = true)
  /\ (Scenario.art = nftContractAddress (getItem Scenario.w4 3) ->
      (is_revert (cancelMarketItem Scenario.w4 (mkMsg Scenario.bob 0) Scenario.art 3)
       = true <->
         value (mkMsg Scenario.bob 0) ≠ 0 \/ tokenId (getItem Scenario.w4 3) = 0
         \/ seller (getItem Scenario.w4 3) ≠ sender (mkMsg Scenario.bob 0)
         \/ cancel_transfer_ok Scenario.w4 (sender (mkMsg Scenario.bob 0))
              (nftContractAddress (getItem Scenario.w4 3)) 3
            = false))
  /\ (forall w',
        cancelMarketItem Scenario.w4 (mkMsg Scenario.bob 0) Scenario.art 3 = Ok w' ->
        owner (getItem w' 3) = sender (mkMsg Scenario.bob 0)
        /\ seller (getItem w' 3) = sender (mkMsg Scenario.bob 0)
        /\ seller (getItem Scenario.w4 3) = sender (mkMsg Scenario.bob 0)
        /\ canceled (getItem w' 3) = true
        /\ _tokensCanceledCounter w' = _tokensCanceledCounter Scenario.w4 + 1
        /\ _tokensSoldCounter w' = _tokensSoldCounter Scenario.w4
        /\ _marketItemIdCounter w' = _marketItemIdCounter Scenario.w4
        /\ (Scenario.art = nftContractAddress (getItem Scenario.w4 3) ->
            exists c,
              collections w' !! nftContractAddress (getItem Scenario.w4 3) = Some c
              /\ holders c !! tokenId (getItem Scenario.w4 3)
                 = Some (seller (getItem Scenario.w4 3)))
        /\ (forall l, fetchAvailableMarketItems w' = Ok l ->
                      forall it, it ∈ l -> marketItemId it ≠ 3)).
Proof.
  apply (cancelMarketItem_rejects_iff Scenario.w4 (mkMsg Scenario.bob 0)
           Scenario.art 3).
  apply (Scenario_reachable
           [Scenario.list7; Scenario.buy1 Scenario.bob; Scenario.relist7;
            Scenario.list9]).
  vm_compute. reflexivity.
Defined.

(** The claim of C6 as it was stated fails three times over.  Item 1 exists
    and alice is its stored seller, yet her cancellation after the sale to
    bob is rejected, the ledger no longer holding the token.  Item 3 exists
    and bob is its stored seller, yet his cancellation is rejected when it
    carries one wei.  And alice's cancellation of item 1, a listing of token
    7 of [art], returns when it names [prints], while token 7 of [art] stays
    with the ledger: custody has not returned to the seller. *)
Lemma cancelMarketItem_rejects_stored_seller :
  ~ (is_revert (cancelMarketItem Scenario.w2 (mkMsg Scenario.alice 0) Scenario.art 1)
     = true
     <-> tokenId (getItem Scenario.w2 1) = 0
         \/ seller (getItem Scenario.w2 1) ≠ Scenario.alice)
  /\ ~ (is_revert (cancelMarketItem Scenario.w4 (mkMsg Scenario.bob 1) Scenario.art 3)
       = true
       <-> tokenId (getItem Scenario.w4 3) = 0
           \/ seller (getItem Scenario.w4 3) ≠ Scenario.bob)
  /\ (nftContractAddress (getItem Scenario.v2 1) = Scenario.art
      /\ tokenId (getItem Scenario.v2 1) = 7
      /\ seller (getItem Scenario.v2 1) = Scenario.alice
      /\ cancelMarketItem Scenario.v2 (mkMsg Scenario.alice 0) Scenario.prints 1
         = Ok Scenario.v3
      /\ canceled (getItem Scenario.v3 1) = true
      /\ (c ← collections Scenario.v3 !! Scenario.art; holders c !! 7)
         = Some Scenario.market).
Proof.
  split; [|split].
  - intros [H _].
    destruct H as [H|H];
      [ vm_compute; reflexivity | vm_compute in H; discriminate
      | apply H; vm_compute; reflexivity ].
  - intros [H _].
    destruct H as [H|H];
      [ vm_compute; reflexivity | vm_compute in H; discriminate
      | apply H; vm_compute; reflexivity ].
  - repeat split; vm_compute; reflexivity.
Qed.

(** ** Allocation *)

Lemma max_item_id_counter w : ledger_inv w -> max_item_id w = _marketItemIdCounter w.
Proof.
  intros Hinv. unfold max_item_id.
  pose proof (map_fold_weak_ind
    (fun (r : Z) (m : gmap Z MarketItem) =>
       0 <= r
       /\ (forall k it, m !! k = Some it -> marketItemId it <= r)
       /\ (r = 0 \/ exists k it, m !! k = Some it /\ marketItemId it = r))
    (fun _ it acc => Z.max (marketItemId it) acc) 0) as Hind.
  destruct (Hind) with (m := marketItemIdToMarketItem w) as (H0 & Hub & Hat).
  - split; [done|]. split; [|by left]. intros k it Hk. by rewrite lookup_empty in Hk.
  - intros i x m r Hi (Hr0 & Hrub & Hrat). split; [lia|]. split.
    + intros k it Hk. rewrite lookup_insert in Hk. case_decide.
      * injection Hk as <-. lia.
      * specialize (Hrub k it Hk). lia.
    + destruct (Z.max_spec (marketItemId x) r) as [[Hlt ->]|[Hle ->]].
      * destruct Hrat as [->|(k & it & Hk & Hid)]; [by left|].
        right. exists k, it. split; [|done].
        rewrite lookup_insert_ne; [done|]. intros <-. congruence.
      * right. exists i, x. by rewrite lookup_insert_eq.
  - pose proof (inv_counter w Hinv) as HC.
    assert (Hstored : forall k it, marketItemIdToMarketItem w !! k = Some it ->
                                   marketItemId it <= _marketItemIdCounter w).
    { intros k it Hk. assert (Hg : getItem w k = it) by (unfold getItem; by rewrite Hk).
      destruct (decide (allocated w k)) as [Ha|Ha].
      - destruct (inv_stored w Hinv k Ha) as (_ & Hid & _). rewrite Hg in Hid.
        unfold allocated in Ha. lia.
      - destruct (inv_phantom w Hinv k Ha) as (Hid & _). rewrite Hg in Hid. lia. }
    apply Z.le_antisymm.
    + destruct Hat as [->|(k & it & Hk & <-)]; [lia | by eapply Hstored].
    + destruct (decide (_marketItemIdCounter w = 0)) as [->|Hne]; [done|].
      assert (Ha : allocated w (_marketItemIdCounter w)) by (unfold allocated; lia).
      destruct (inv_stored w Hinv _ Ha) as ([it Hit] & Hid & _).
      unfold getItem in Hid. rewrite Hit in Hid. simpl in Hid.
      rewrite <- Hid at 1. by eapply Hub.
Qed.

Lemma createMarketItem_is_ok w msg nft tid askPrice :
  is_ok (createMarketItem w msg nft tid askPrice) = true <->
  0 < askPrice /\ value msg = listingFee w
  /\ listing_transfers_ok w msg nft tid = true.
Proof.
  split.
  - intros ([id w'] & H)%is_ok_true.
    apply createMarketItem_Ok in H as (c & c' & Hv & Hp & Hf & -> & Hle & Hc & Htr & _).
    split; [done|]. split; [done|].
    unfold listing_transfers_ok, token_transfer_ok. rewrite Hc, Htr.
    rewrite !andb_true_iff, !Z.leb_le. repeat split; (done || lia).
  - intros (Hp & Hf & Hok). unfold listing_transfers_ok in Hok.
    repeat (let H := fresh "G" in apply andb_true_iff in Hok as [Hok H]).
    apply Z.leb_le in Hok, G1, G0.
    apply token_transfer_ok_spec in G as (c & c' & Hc & Htr).
    unfold createMarketItem.
    rewrite receive_value_eq by done. cbn [mbind result_bind].
    rewrite (proj2 (Z.ltb_lt _ _) Hp), require_true. cbn [mbind result_bind].
    change (listingFee (move _ _ _ w)) with (listingFee w).
    rewrite (proj2 (Z.eqb_eq _ _) Hf), require_true. cbn [mbind result_bind].
    change (_marketItemIdCounter (move _ _ _ w)) with (_marketItemIdCounter w).
    rewrite checked_add_eq by done. cbn [mbind result_bind].
    unfold call_getTokenCreatorById.
    change (collections (set_counter _ (move _ _ _ w))) with (collections w).
    rewrite Hc. cbn [mbind result_bind].
    erewrite call_transferFrom_eq; [done|exact Hc|exact Htr].
Qed.

(** C3. In a reachable state, a [createMarketItem] call with price > 0, with
    payment equal to the listing fee (which the caller can fund), with the id
    counter below its maximum and with the token transfer accepted by the
    collection returns the greatest id stored so far plus one, and stores
    under that id a record with that id, the collection, the token, the
    creator recorded by the collection, [seller] the caller, [owner] the
    zero address, the given price and both flags false. *)
Theorem createMarketItem_allocates (w : State) (msg : Msg) (nft : address)
    (tid askPrice : Z) :
  reachable w ->
  0 < askPrice ->
  value msg = listingFee w ->
  listing_transfers_ok w msg nft tid = true ->
  exists w' c,
    collections w !! nft = Some c
    /\ createMarketItem w msg nft tid askPrice = Ok (max_item_id w + 1, w')
    /\ marketItemIdToMarketItem w' !! (max_item_id w + 1)
       = Some (mkMarketItem (max_item_id w + 1) nft tid (getTokenCreatorById c tid)
                 (sender msg) zero_address askPrice false false)
    /\ _marketItemIdCounter w' = _marketItemIdCounter w + 1
    /\ _marketItemIdCounter w = max_item_id w
    /\ (forall k, k ≠ max_item_id w + 1 -> getItem w' k = getItem w k)
    /\ (exists c', collections w' !! nft = Some c'
                   /\ holders c' !! tid = Some (this w)).
Proof.
  intros Hr Hp Hf Hok.
  rewrite (max_item_id_counter w (reachable_inv w Hr)).
  pose proof (proj2 (createMarketItem_is_ok w msg nft tid askPrice)
                (conj Hp (conj Hf Hok))) as H.
  apply is_ok_true in H as [[id w'] H].
  pose proof H as H'.
  apply createMarketItem_Ok in H' as (c & c' & _ & _ & _ & -> & _ & Hc & Htr & ->).
  eexists _, c. split; [done|]. split; [exact H|].
  split; [simpl; apply lookup_insert_eq|]. split; [done|]. split; [done|]. split.
  - intros k Hk. autorewrite with state. by rewrite getItem_set_item_ne.
  - exists c'. split; [simpl; apply lookup_insert_eq|].
    by apply transferFrom_Ok in Htr as (_ & _ & _ & ?).
Qed.

Lemma createMarketItem_allocates_witness :
  exists w' c,
    collections Scenario.w0 !! Scenario.art = Some c
    /\ createMarketItem Scenario.w0 (mkMsg Scenario.alice Scenario.fee)
         Scenario.art 7 100 = Ok (max_item_id Scenario.w0 + 1, w')
    /\ marketItemIdToMarketItem w' !! (max_item_id Scenario.w0 + 1)
       = Some (mkMarketItem (max_item_id Scenario.w0 + 1) Scenario.art 7
                 (getTokenCreatorById c 7) Scenario.alice zero_address 100
                 false false)
    /\ _marketItemIdCounter w' = _marketItemIdCounter Scenario.w0 + 1
    /\ _marketItemIdCounter Scenario.w0 = max_item_id Scenario.w0
    /\ (forall k, k ≠ max_item_id Scenario.w0 + 1 ->
                  getItem w' k = getItem Scenario.w0 k)
    /\ (exists c', collections w' !! Scenario.art = Some c'
                   /\ holders c' !! 7 = Some (this Scenario.w0)).
Proof.
  apply (createMarketItem_allocates Scenario.w0 (mkMsg Scenario.alice Scenario.fee)
           Scenario.art 7 100).
  - apply reachable_init.
  - lia.
  - reflexivity.
  - vm_compute. reflexivity.
Defined.

(** C4. A [createMarketItem] call whose payment differs from the listing fee,
    or whose price is zero, rejects; the item counter and the rest of the
    state are as before. *)
Theorem createMarketItem_rejects (w : State) (msg : Msg) (nft : address)
    (tid askPrice : Z) :
  value msg ≠ listingFee w \/ askPrice = 0 ->
  (exists f, createMarketItem w msg nft tid askPrice = Revert f)
  /\ exec w (CreateMarketItem msg nft tid askPrice) = w
  /\ _marketItemIdCounter (exec w (CreateMarketItem msg nft tid askPrice))
     = _marketItemIdCounter w.
Proof.
  intros Hbad.
  assert (Hrev : exists f, createMarketItem w msg nft tid askPrice = Revert f).
  { destruct (createMarketItem w msg nft tid askPrice) as [a|f] eqn:E; [|by eexists].
    assert (Hok : is_ok (createMarketItem w msg nft tid askPrice) = true)
      by (by rewrite E).
    apply createMarketItem_is_ok in Hok as (Hp & Hf & _). lia. }
  destruct Hrev as [f Hf]. split; [by exists f|].
  assert (He : exec w (CreateMarketItem msg nft tid askPrice) = w).
  { unfold exec; simpl. by rewrite Hf. }
  by rewrite He.
Qed.

Lemma createMarketItem_rejects_witness :
  (exists f, createMarketItem Scenario.w0 (mkMsg Scenario.alice 5) Scenario.art 7 100
             = Revert f)
  /\ exec Scenario.w0 (CreateMarketItem (mkMsg Scenario.alice 5) Scenario.art 7 100)
     = Scenario.w0
  /\ _marketItemIdCounter
       (exec Scenario.w0 (CreateMarketItem (mkMsg Scenario.alice 5) Scenario.art 7 100))
     = _marketItemIdCounter Scenario.w0.
Proof.
  apply (createMarketItem_rejects Scenario.w0 (mkMsg Scenario.alice 5)
           Scenario.art 7 100).
  left. vm_compute. lia.
Defined.

(** ** Latest item of a token *)

Lemma latest_loop_spec w t (n : nat) :
  (exists k, 1 <= k <= Z.of_nat n
             /\ tokenId (getItem w k) = t
             /\ (forall j, k < j <= Z.of_nat n -> tokenId (getItem w j) ≠ t)
             /\ latest_loop w t n = (getItem w k, true))
  \/ ((forall j, 1 <= j <= Z.of_nat n -> tokenId (getItem w j) ≠ t)
      /\ latest_loop w t n = (emptyMarketItem, false)).
Proof.
  induction n as [|n IH].
  - right. split; [intros; lia | done].
  - cbn [latest_loop].
    destruct (Z.eqb_spec (tokenId (getItem w (Z.of_nat (S n)))) t) as [He|Hne];
      cbn [negb].
    + left. exists (Z.of_nat (S n)). repeat split; try done; try lia.
    + destruct IH as [(k & Hk & Ht & Hlast & ->)|(Hnone & ->)].
      * left. exists k. repeat split; try done; try lia.
        intros j Hj. destruct (decide (j = Z.of_nat (S n))) as [->|?]; [done|].
        apply Hlast. lia.
      * right. split; [|done].
        intros j Hj. destruct (decide (j = Z.of_nat (S n))) as [->|?]; [done|].
        apply Hnone. lia.
Qed.

(** C7. In a reachable state [getLatestMarketItemByTokenId] returns, with the
    flag true, the allocated record of the given token id whose
    [marketItemId] is greatest, and the empty record with the flag false when
    no allocated record has that token id. *)
Theorem getLatestMarketItemByTokenId_latest (w : State) (tid : Z) :
  reachable w ->
  ((exists k, allocated w k /\ tokenId (getItem w k) = tid) ->
   exists k,
     allocated w k
     /\ getLatestMarketItemByTokenId w tid = (getItem w k, true)
     /\ tokenId (getItem w k) = tid
     /\ marketItemId (getItem w k) = k
     /\ marketItemIdToMarketItem w !! k = Some (getItem w k)
     /\ forall j, allocated w j -> tokenId (getItem w j) = tid ->
                  marketItemId (getItem w j) <= marketItemId (getItem w k))
  /\ ((forall k, allocated w k -> tokenId (getItem w k) ≠ tid) ->
      getLatestMarketItemByTokenId w tid = (emptyMarketItem, false)).
Proof.
  intros Hr. pose proof (reachable_inv w Hr) as Hinv.
  pose proof (inv_counter w Hinv) as HC.
  unfold getLatestMarketItemByTokenId, allocated.
  destruct (latest_loop_spec w tid (Z.to_nat (_marketItemIdCounter w)))
    as [(k & Hk & Ht & Hlast & ->)|(Hnone & ->)]; rewrite Z2Nat.id in * by lia.
  - split.
    + intros _. exists k. destruct (inv_stored w Hinv k Hk) as ([it Hit] & Hid & _).
      repeat split; try done; try lia.
      * unfold getItem. by rewrite Hit.
      * intros j Hj Hjt.
        destruct (inv_stored w Hinv j Hj) as (_ & Hjid & _). rewrite Hjid, Hid.
        destruct (decide (j <= k)); [done|]. exfalso. apply (Hlast j); [lia|done].
    + intros Hno. exfalso. by apply (Hno k).
  - split; [|done]. intros (k & Hk & Ht). exfalso. by apply (Hnone k).
Qed.

Lemma getLatestMarketItemByTokenId_latest_witness :
  ((exists k, allocated Scenario.w6 k /\ tokenId (getItem Scenario.w6 k) = 7) ->
   exists k,
     allocated Scenario.w6 k
     /\ getLatestMarketItemByTokenId Scenario.w6 7 = (getItem Scenario.w6 k, true)
     /\ tokenId (getItem Scenario.w6 k) = 7
     /\ marketItemId (getItem Scenario.w6 k) = k
     /\ marketItemIdToMarketItem Scenario.w6 !! k = Some (getItem Scenario.w6 k)
     /\ forall j, allocated Scenario.w6 j -> tokenId (getItem Scenario.w6 j) = 7 ->
                  marketItemId (getItem Scenario.w6 j)
                  <= marketItemId (getItem Scenario.w6 k))
  /\ ((forall k, allocated Scenario.w6 k -> tokenId (getItem Scenario.w6 k) ≠ 7) ->
      getLatestMarketItemByTokenId Scenario.w6 7 = (emptyMarketItem, false)).
Proof.
  apply (getLatestMarketItemByTokenId_latest Scenario.w6 7).
  apply (Scenario_reachable Scenario.history).
  vm_compute. reflexivity.
Defined.

(** ** Items by role *)

Lemma getMarketItemAddressByProperty_valid it prop :
  valid_role prop = true ->
  getMarketItemAddressByProperty it prop = Ok (role_address prop it).
Proof.
  intros Hv. unfold getMarketItemAddressByProperty. unfold valid_role in Hv.
  by rewrite Hv.
Qed.

Lemma count_loop_spec w caller prop (n : nat) :
  valid_role prop = true ->
  forall (i : Z) (cnt : nat),
    count_loop w caller prop n i cnt
    = Ok (cnt + length (filter (has_role prop caller)
                          (getItem w <$> seqZ (i + 1) (Z.of_nat n))))%nat.
Proof.
  intros Hv. induction n as [|n IH]; intros i cnt.
  - cbn [count_loop]. rewrite seqZ_nil by lia. cbn [fmap list_fmap].
    rewrite filter_nil. cbn [length]. by rewrite Nat.add_0_r.
  - rewrite seqZ_succ, fmap_cons. cbn [count_loop].
    rewrite getMarketItemAddressByProperty_valid by done. cbn [mbind result_bind].
    destruct (decide (has_role prop caller (getItem w (i + 1)))) as [Hr|Hr].
    + rewrite filter_cons_True by done.
      rewrite bool_decide_eq_true_2 by done. cbn [negb length].
      rewrite IH. f_equal. lia.
    + rewrite filter_cons_False by done.
      rewrite bool_decide_eq_false_2 by done. cbn [negb]. apply IH.
Qed.

Lemma fill_loop_spec w caller prop (n : nat) :
  valid_role prop = true ->
  forall (i : Z) (filled : list MarketItem) (k : nat),
    let m := filter (has_role prop caller) (getItem w <$> seqZ (i + 1) (Z.of_nat n)) in
    fill_loop w caller prop n i (filled ++ replicate k emptyMarketItem) (length filled)
    = if decide (length m <= k)%nat
      then Ok (filled ++ m ++ replicate (k - length m) emptyMarketItem)
      else Revert (Panic 50).
Proof.
  intros Hv. induction n as [|n IH]; intros i filled k; cbn zeta.
  - cbn [fill_loop]. rewrite seqZ_nil by lia. cbn [fmap list_fmap].
    rewrite filter_nil. cbn [length app].
    rewrite decide_True by lia. by rewrite Nat.sub_0_r.
  - rewrite seqZ_succ, fmap_cons. cbn [fill_loop].
    rewrite getMarketItemAddressByProperty_valid by done. cbn [mbind result_bind].
    destruct (decide (has_role prop caller (getItem w (i + 1)))) as [Hr|Hr].
    + rewrite filter_cons_True by done.
      rewrite bool_decide_eq_true_2 by done. cbn [negb].
      destruct k as [|k].
      * rewrite bool_decide_eq_false_2 by (rewrite length_app; simpl; lia).
        rewrite decide_False by (simpl; lia). done.
      * rewrite bool_decide_eq_true_2 by (rewrite length_app; simpl; lia).
        cbn [replicate].
        replace (length filled) with (length filled + 0)%nat at 1 by lia.
        rewrite insert_app_r. cbn [insert list_insert].
        specialize (IH (i + 1) (filled ++ [getItem w (i + 1)]) k).
        cbn zeta in IH. rewrite <- !(assoc_L (++)) in IH. cbn [app] in IH.
        rewrite length_app in IH. cbn [length] in IH.
        replace (S (length filled)) with (length filled + 1)%nat by lia.
        rewrite IH. cbn [length].
        destruct (decide (length (filter (has_role prop caller)
                    (getItem w <$> seqZ (i + 1 + 1) (Z.of_nat n))) <= k)%nat).
        -- rewrite decide_True by lia. done.
        -- rewrite decide_False by lia. done.
    + rewrite filter_cons_False by done.
      rewrite bool_decide_eq_false_2 by done. cbn [negb]. apply IH.
Qed.

Lemma seqZ_to_nat m n : seqZ m (Z.of_nat (Z.to_nat n)) = seqZ m n.
Proof.
  destruct (decide (0 <= n)); [by rewrite Z2Nat.id|].
  rewrite !seqZ_nil by lia. done.
Qed.

Lemma fetchMarketItemsByAddressProperty_valid w caller prop :
  valid_role prop = true ->
  fetchMarketItemsByAddressProperty w caller prop
  = Ok (filter (has_role prop caller) (table w)).
Proof.
  intros Hv. unfold fetchMarketItemsByAddressProperty.
  fold (valid_role prop). rewrite Hv, require_true. cbn [mbind result_bind].
  rewrite count_loop_spec by done. cbn [mbind result_bind].
  pose proof (fill_loop_spec w caller prop (Z.to_nat (_marketItemIdCounter w)) Hv 0 []
                (length (filter (has_role prop caller) (table w)))) as Hl.
  cbn zeta in Hl. rewrite seqZ_to_nat in *.
  change (0 + 1) with 1 in *. fold (table w) in *.
  cbn [app length] in Hl. rewrite Nat.add_0_l, Hl.
  rewrite decide_True by lia. rewrite Nat.sub_diag. cbn [replicate].
  by rewrite app_nil_r.
Qed.

Lemma valid_role_spec prop : valid_role prop = true <-> prop = "seller" \/ prop = "owner".
Proof.
  unfold valid_role, compareStrings.
  rewrite orb_true_iff, !String.eqb_eq. done.
Qed.

(** C9. [fetchMarketItemsByAddressProperty] rejects every property string
    other than "seller" and "owner"; for "seller" (for "owner") it returns
    the allocated records whose seller (owner) is the caller, in the order of
    the table, which is ascending [marketItemId] order in a reachable state;
    the array it fills has exactly the size computed by the counting pass. *)
Theorem fetchMarketItemsByAddressProperty_spec (w : State) (caller : address)
    (prop : string) :
  (prop ≠ "seller" -> prop ≠ "owner" ->
   fetchMarketItemsByAddressProperty w caller prop
   = Revert (Error "Parameter must be 'seller' or 'owner'"))
  /\ fetchMarketItemsByAddressProperty w caller "seller"
     = Ok (filter (fun it => seller it = caller)
             (getItem w <$> seqZ 1 (_marketItemIdCounter w)))
  /\ fetchMarketItemsByAddressProperty w caller "owner"
     = Ok (filter (fun it => owner it = caller)
             (getItem w <$> seqZ 1 (_marketItemIdCounter w)))
  /\ (forall l n,
        valid_role prop = true ->
        fetchMarketItemsByAddressProperty w caller prop = Ok l ->
        count_loop w caller prop (Z.to_nat (_marketItemIdCounter w)) 0 0 = Ok n ->
        length l = n)
  /\ (reachable w ->
      forall l, fetchMarketItemsByAddressProperty w caller prop = Ok l ->
                StronglySorted Z.lt (marketItemId <$> l)
                /\ forall it, it ∈ l ->
                     allocated w (marketItemId it)
                     /\ getItem w (marketItemId it) = it).
Proof.
  split; [|split; [|split; [|split]]].
  - intros Hs Ho. unfold fetchMarketItemsByAddressProperty.
    fold (valid_role prop).
    destruct (valid_role prop) eqn:Hv; [|done].
    apply valid_role_spec in Hv as [?|?]; done.
  - rewrite fetchMarketItemsByAddressProperty_valid by done. done.
  - rewrite fetchMarketItemsByAddressProperty_valid by done. done.
  - intros l n Hv Hl Hn.
    rewrite fetchMarketItemsByAddressProperty_valid in Hl by done.
    rewrite count_loop_spec in Hn by done.
    rewrite seqZ_to_nat in Hn. change (0 + 1) with 1 in Hn. fold (table w) in Hn.
    injection Hl as <-. injection Hn as <-. done.
  - intros Hr l Hl. pose proof (reachable_inv w Hr) as Hinv.
    destruct (valid_role prop) eqn:Hv.
    + rewrite fetchMarketItemsByAddressProperty_valid in Hl by done.
      injection Hl as <-. split.
      * apply StronglySorted_fmap_filter. rewrite table_ids by done.
        rewrite <- (Z2Nat.id (_marketItemIdCounter w)) by apply (inv_counter w Hinv).
        apply StronglySorted_seqZ.
      * intros it [_ Hit]%list_elem_of_filter.
        apply elem_of_table in Hit as (k & Hk & ->).
        destruct (inv_stored w Hinv k Hk) as (_ & -> & _). done.
    + unfold fetchMarketItemsByAddressProperty in Hl. fold (valid_role prop) in Hl.
      by rewrite Hv in Hl.
Qed.

Lemma fetchMarketItemsByAddressProperty_spec_witness :
  exists l,
    fetchMarketItemsByAddressProperty Scenario.w6 Scenario.bob "seller" = Ok l
    /\ StronglySorted Z.lt (marketItemId <$> l)
    /\ forall it, it ∈ l ->
         allocated Scenario.w6 (marketItemId it)
         /\ getItem Scenario.w6 (marketItemId it) = it.
Proof.
  pose proof (fetchMarketItemsByAddressProperty_spec Scenario.w6 Scenario.bob "seller")
    as (_ & Hs & _ & _ & Hso).
  eexists. split; [exact Hs|].
  apply Hso; [|exact Hs].
  apply (Scenario_reachable Scenario.history). vm_compute. reflexivity.
Defined.

(** ** Monotonicity of the ledger *)

Lemma item_evolves_refl it : item_evolves it it.
Proof. by repeat split. Qed.

Lemma ledger_grows_refl w : ledger_grows w w.
Proof. split; [lia|]. split; [done|]. intros. apply item_evolves_refl. Qed.

Lemma ledger_grows_trans w1 w2 w3 :
  ledger_grows w1 w2 -> ledger_grows w2 w3 -> ledger_grows w1 w3.
Proof.
  intros (HC1 & Hd1 & He1) (HC2 & Hd2 & He2). split; [lia|]. split; [by auto|].
  intros k Hk.
  assert (Hk2 : allocated w2 k) by (unfold allocated in *; lia).
  specialize (He1 k Hk). specialize (He2 k Hk2).
  destruct He1 as (?&?&?&?&?&?&?&?), He2 as (?&?&?&?&?&?&?&?).
  repeat split; try congruence; auto.
Qed.

Lemma ledger_step_grows w w' : ledger_step w w' -> ledger_grows w w'.
Proof.
  intros
    [(EC & ES & EK & EI)
    | it EC Hle ES EK EI Hid Htok Hsel Hown Hsold Hcan
    | id buyer Hb EC ES Hle EK EI
    | id caller Hb Htid Hsel EC ES EK Hle EI].
  - split; [lia|]. split; [by rewrite EI|].
    intros k _. rewrite (getItem_ext w w' EI). apply item_evolves_refl.
  - split; [lia|]. split.
    + intros k Hk. rewrite EI, lookup_insert. by case_decide.
    + intros k Hk. rewrite (getItem_insert w w' _ it k EI).
      rewrite decide_False by (unfold allocated in Hk; lia). apply item_evolves_refl.
  - split; [lia|]. split.
    + intros k Hk. rewrite EI, lookup_insert. by case_decide.
    + intros k Hk. rewrite (getItem_insert w w' _ _ k EI).
      case_decide; [subst k; by repeat split | apply item_evolves_refl].
  - split; [lia|]. split.
    + intros k Hk. rewrite EI, lookup_insert. by case_decide.
    + intros k Hk. rewrite (getItem_insert w w' _ _ k EI).
      case_decide; [subst k; by repeat split | apply item_evolves_refl].
Qed.

Lemma run_grows cs :
  forall w, forallb wf_call cs = true -> ledger_grows w (run w cs).
Proof.
  induction cs as [|c cs IH]; intros w Hwf; [apply ledger_grows_refl|].
  simpl in Hwf. apply andb_true_iff in Hwf as [Hc Hcs].
  unfold run; cbn [foldl]. eapply ledger_grows_trans; [|by apply IH].
  by apply ledger_step_grows, exec_ledger_step.
Qed.

(** C8. Along every sequence of transactions from a reachable state: the
    allocated ids are exactly 1 up to the counter, each stored under its own
    id, and no other stored record carries an id; the counter does not
    decrease; a key present in the mapping stays present; and an allocated
    item keeps its id, collection, token, creator, seller and price, while
    its sold and canceled flags, once true, stay true. *)
Theorem ledger_history_monotone (w : State) (cs : list Call) :
  reachable w ->
  forallb wf_call cs = true ->
  let w' := run w cs in
  (forall k, 1 <= k <= _marketItemIdCounter w' ->
             is_Some (marketItemIdToMarketItem w' !! k)
             /\ marketItemId (getItem w' k) = k)
  /\ (forall k it, marketItemIdToMarketItem w' !! k = Some it ->
                   marketItemId it ≠ 0 ->
                   marketItemId it = k /\ 1 <= k <= _marketItemIdCounter w')
  /\ 0 <= _marketItemIdCounter w <= _marketItemIdCounter w'
  /\ (forall k, is_Some (marketItemIdToMarketItem w !! k) ->
                is_Some (marketItemIdToMarketItem w' !! k))
  /\ (forall k, 1 <= k <= _marketItemIdCounter w ->
                sold (getItem w k) = true -> sold (getItem w' k) = true)
  /\ (forall k, 1 <= k <= _marketItemIdCounter w ->
                canceled (getItem w k) = true -> canceled (getItem w' k) = true)
  /\ (forall k, 1 <= k <= _marketItemIdCounter w ->
                item_evolves (getItem w k) (getItem w' k)).
Proof.
  intros Hr Hwf w'.
  pose proof (reachable_inv w Hr) as Hinv.
  pose proof (reachable_inv w' (reachable_run w cs Hr Hwf)) as Hinv'.
  destruct (run_grows cs w Hwf) as (HC & Hdom & Hev). fold w' in HC, Hdom, Hev.
  split; [|split; [|split; [|split; [|split; [|split]]]]].
  - intros k Hk. destruct (inv_stored w' Hinv' k Hk) as (? & ? & _). done.
  - intros k it Hk Hid.
    assert (Hg : getItem w' k = it) by (unfold getItem; by rewrite Hk).
    destruct (decide (allocated w' k)) as [Ha|Ha].
    + destruct (inv_stored w' Hinv' k Ha) as (_ & Hkid & _).
      rewrite Hg in Hkid. done.
    + destruct (inv_phantom w' Hinv' k Ha) as (Hz & _). rewrite Hg in Hz. done.
  - pose proof (inv_counter w Hinv). lia.
  - done.
  - intros k Hk. by destruct (Hev k Hk) as (_&_&_&_&_&_&?&_).
  - intros k Hk. by destruct (Hev k Hk) as (_&_&_&_&_&_&_&?).
  - done.
Qed.

Lemma ledger_history_monotone_witness :
  let w := Scenario.w2 in
  let w' := run Scenario.w2
              [Scenario.relist7; Scenario.list9; Scenario.cancel3; Scenario.list0] in
  (forall k, 1 <= k <= _marketItemIdCounter w' ->
             is_Some (marketItemIdToMarketItem w' !! k)
             /\ marketItemId (getItem w' k) = k)
  /\ (forall k it, marketItemIdToMarketItem w' !! k = Some it ->
                   marketItemId it ≠ 0 ->
                   marketItemId it = k /\ 1 <= k <= _marketItemIdCounter w')
  /\ 0 <= _marketItemIdCounter w <= _marketItemIdCounter w'
  /\ (forall k, is_Some (marketItemIdToMarketItem w !! k) ->
                is_Some (marketItemIdToMarketItem w' !! k))
  /\ (forall k, 1 <= k <= _marketItemIdCounter w ->
                sold (getItem w k) = true -> sold (getItem w' k) = true)
  /\ (forall k, 1 <= k <= _marketItemIdCounter w ->
                canceled (getItem w k) = true -> canceled (getItem w' k) = true)
  /\ (forall k, 1 <= k <= _marketItemIdCounter w ->
                item_evolves (getItem w k) (getItem w' k)).
Proof.
  apply (ledger_history_monotone Scenario.w2
           [Scenario.relist7; Scenario.list9; Scenario.cancel3; Scenario.list0]).
  - apply (Scenario_reachable [Scenario.list7; Scenario.buy1 Scenario.bob]).
    vm_compute. reflexivity.
  - vm_compute. reflexivity.
Defined.

(** The scope of the flag monotonicity is the allocated ids: a record
    written by a sale on a never allocated id is overwritten, flag and all,
    when that id is allocated. *)
Remark phantom_record_overwritten :
  ~ allocated Scenario.w7 5
  /\ sold (getItem Scenario.w7 5) = true
  /\ allocated Scenario.w8 5
  /\ sold (getItem Scenario.w8 5) = false.
Proof.
  split; [|split; [|split]]; try (vm_compute; reflexivity).
  - unfold allocated. vm_compute. intros [_ H]. by apply H.
  - unfold allocated. vm_compute. split; discriminate.
Qed.

(** ** Sales on ids that were never allocated *)

Lemma fetchAvailableMarketItems_short w :
  _marketItemIdCounter w - _tokensSoldCounter w - _tokensCanceledCounter w
    < zero_owner_count w ->
  is_revert (fetchAvailableMarketItems w) = true.
Proof.
  intros Hlt. unfold fetchAvailableMarketItems, checked_sub.
  destruct (Z.leb_spec (_tokensSoldCounter w) (_marketItemIdCounter w)); [|done].
  cbn [mbind result_bind].
  destruct (Z.leb_spec (_tokensCanceledCounter w)
              (_marketItemIdCounter w - _tokensSoldCounter w)); [|done].
  cbn [mbind result_bind].
  pose proof (available_loop_spec w (Z.to_nat (_marketItemIdCounter w)) 0 []
    (Z.to_nat (_marketItemIdCounter w - _tokensSoldCounter w
               - _tokensCanceledCounter w))) as Hl.
  cbn zeta in Hl. rewrite seqZ_to_nat in Hl.
  change (0 + 1) with 1 in Hl. fold (table w) in Hl. fold (available w) in Hl.
  cbn [app length] in Hl. rewrite Hl.
  rewrite decide_False; [done|]. unfold zero_owner_count in Hlt. lia.
Qed.

(** C10 (as amended). [createMarketSale] does not check that the id was
    allocated.  In a reachable state the record of a never allocated id has
    price zero, so a call attaching zero payment passes the payment check;
    when the transfers the call makes go through, it returns, the record has
    the caller as owner and is marked sold, the sold counter has grown by
    one, and the created counter minus the sold counter minus the canceled
    counter is below, hence different from, the number of zero-owner items,
    so that [fetchAvailableMarketItems] reverts from then on. *)
Theorem createMarketSale_unallocated (w : State) (msg : Msg) (nft : address) (id : Z) :
  reachable w ->
  ~ (1 <= id <= _marketItemIdCounter w) ->
  value msg = 0 ->
  sale_transfers_ok w msg nft id = true ->
  price (getItem w id) = 0
  /\ (value msg =? price (getItem w id)) = true
  /\ exists w',
       createMarketSale w msg nft id = Ok w'
       /\ owner (getItem w' id) = sender msg
       /\ sold (getItem w' id) = true
       /\ marketItemId (getItem w' id) = 0
       /\ _tokensSoldCounter w' = _tokensSoldCounter w + 1
       /\ _marketItemIdCounter w' - _tokensSoldCounter w' - _tokensCanceledCounter w'
          ≠ zero_owner_count w'
       /\ is_revert (fetchAvailableMarketItems w') = true.
Proof.
  intros Hr Hna Hv Hok. pose proof (reachable_inv w Hr) as Hinv.
  destruct (inv_phantom w Hinv id Hna) as (Hid & _ & Hp & _).
  split; [done|]. split; [by rewrite Hv, Hp|].
  assert (Hpay : value msg = price (getItem w id)) by lia.
  pose proof (proj2 (createMarketSale_is_ok w msg nft id) (conj Hpay Hok)) as H.
  apply is_ok_true in H as [w' H]. exists w'. split; [done|].
  apply createMarketSale_Ok in H as (c & c' & _ & _ & _ & _ & _ & _ & _ & _ & _ & ->).
  autorewrite with state.
  match goal with |- context [zero_owner_count ?s] => set (w' := s) end.
  assert (Hz : zero_owner_count w' = zero_owner_count w).
  { unfold zero_owner_count, available. f_equal. f_equal. f_equal.
    erewrite (table_update w w' id); [|reflexivity|reflexivity].
    by rewrite decide_False. }
  pose proof (inv_count w Hinv) as Hc.
  assert (Hlt : _marketItemIdCounter w' - _tokensSoldCounter w'
                - _tokensCanceledCounter w' < zero_owner_count w')
    by (rewrite Hz; subst w'; simpl; lia).
  repeat split; try done.
  - lia.
  - by apply fetchAvailableMarketItems_short.
Qed.

Lemma createMarketSale_unallocated_witness :
  price (getItem Scenario.w6 5) = 0
  /\ (value (mkMsg Scenario.carol 0) =? price (getItem Scenario.w6 5)) = true
  /\ exists w',
       createMarketSale Scenario.w6 (mkMsg Scenario.carol 0) Scenario.art 5 = Ok w'
       /\ owner (getItem w' 5) = Scenario.carol
       /\ sold (getItem w' 5) = true
       /\ marketItemId (getItem w' 5) = 0
       /\ _tokensSoldCounter w' = _tokensSoldCounter Scenario.w6 + 1
       /\ _marketItemIdCounter w' - _tokensSoldCounter w' - _tokensCanceledCounter w'
          ≠ zero_owner_count w'
       /\ is_revert (fetchAvailableMarketItems w') = true.
Proof.
  apply (createMarketSale_unallocated Scenario.w6 (mkMsg Scenario.carol 0)
           Scenario.art 5).
  - apply (Scenario_reachable Scenario.history). vm_compute. reflexivity.
  - vm_compute. intros [_ H]. by apply H.
  - reflexivity.
  - vm_compute. reflexivity.
Defined.

(** The claim of C10 as it was stated fails: right after deployment id 5 was
    never allocated and carol attaches zero payment, but the call is rejected
    (the ledger holds no token 0 and no fee to pay out), so that no record is
    marked and the sold counter stays as it was. *)
Lemma createMarketSale_unallocated_rejected :
  let w' := exec Scenario.w0 (CreateMarketSale (mkMsg Scenario.carol 0) Scenario.art 5) in
  ~ (1 <= 5 <= _marketItemIdCounter Scenario.w0)
  /\ value (mkMsg Scenario.carol 0) = 0
  /\ ~ (sold (getItem w' 5) = true
        /\ owner (getItem w' 5) = Scenario.carol
        /\ _tokensSoldCounter w' = _tokensSoldCounter Scenario.w0 + 1).
Proof.
  cbv zeta. split; [|split; [reflexivity|]].
  - vm_compute. intros [_ H]. by apply H.
  - intros (H & _). vm_compute in H. discriminate.
Qed.

(** * Further properties of the ledger *)

(** ** What no transaction changes *)

Lemma call_immutables w c w' :
  call w c = Ok w' ->
  contractOwner w' = contractOwner w /\ listingFee w' = listingFee w
  /\ this w' = this w.
Proof.
  intros H. destruct c as [msg nft tid p | msg nft id | msg nft id | b r cs];
    simpl in H.
  - inv_bind H. destruct a as [id w1]. injection H as <-.
    apply createMarketItem_Ok in E as (c & c' & _ & _ & _ & _ & _ & _ & _ & ->). done.
  - apply cancelMarketItem_Ok in H as (c & c' & _ & _ & _ & _ & _ & ->). done.
  - apply createMarketSale_Ok in H
      as (c & c' & _ & _ & _ & _ & _ & _ & _ & _ & _ & ->). done.
  - injection H as <-. done.
Qed.

Lemma exec_immutables w c :
  contractOwner (exec w c) = contractOwner w
  /\ listingFee (exec w c) = listingFee w
  /\ this (exec w c) = this w.
Proof.
  unfold exec. destruct (call w c) as [w'|] eqn:E; [|done].
  by apply (call_immutables w c).
Qed.

Lemma run_immutables cs :
  forall w,
    contractOwner (run w cs) = contractOwner w
    /\ listingFee (run w cs) = listingFee w
    /\ this (run w cs) = this w.
Proof.
  induction cs as [|c cs IH]; intros w; [done|].
  unfold run; cbn [foldl]. fold (run (exec w c) cs).
  destruct (IH (exec w c)) as (-> & -> & ->). apply exec_immutables.
Qed.

(** X1. Whatever transactions follow the deployment, accepted or rejected,
    well-formed or not, the listing fee read by [getListingFee] is 0.045
    ether, the fee beneficiary is the deployer and the contract's address is
    its own: no entry point writes them. *)
Theorem getListingFee_constant
    (deployer self : address) (b : gmap address Z) (r : gset address)
    (cols : gmap address Collection) (cs : list Call) :
  let w := run (constructor deployer self b r cols) cs in
  getListingFee w = 45 * 10 ^ 15
  /\ contractOwner w = deployer
  /\ this w = self.
Proof.
  intros w. unfold getListingFee.
  destruct (run_immutables cs (constructor deployer self b r cols)) as (Ho & Hf & Ht).
  fold w in Ho, Hf, Ht. rewrite Ho, Hf, Ht. done.
Qed.

(** ** Which rejection a caller sees *)

(** X2. The two checks of [createMarketItem] run in the order price, then
    payment: a funded call with price zero is rejected for the price, also
    when its payment is wrong as well; a funded call with a positive price
    and a payment other than the fee is rejected for the payment, before the
    collection is ever called. *)
Theorem createMarketItem_error_order (w : State) (msg : Msg) (nft : address)
    (tid askPrice : Z) :
  0 <= value msg <= balanceOf w (sender msg) ->
  (askPrice <= 0 ->
   createMarketItem w msg nft tid askPrice
   = Revert (Error "Price must be at least 1 wei"))
  /\ (0 < askPrice -> value msg ≠ listingFee w ->
      createMarketItem w msg nft tid askPrice
      = Revert (Error "Price must be equal to listing price")).
Proof.
  intros Hv. unfold createMarketItem.
  rewrite receive_value_eq by done. cbn [mbind result_bind]. split.
  - intros Hp. by rewrite (proj2 (Z.ltb_ge _ _) Hp).
  - intros Hp Hf. rewrite (proj2 (Z.ltb_lt _ _) Hp), require_true.
    cbn [mbind result_bind].
    change (listingFee (move _ _ _ w)) with (listingFee w).
    by rewrite (proj2 (Z.eqb_neq _ _) Hf).
Qed.

Lemma createMarketItem_error_order_witness :
  (0 <= 0 ->
   createMarketItem Scenario.w0 (mkMsg Scenario.alice 5) 777 7 0
   = Revert (Error "Price must be at least 1 wei"))
  /\ (0 < 0 -> value (mkMsg Scenario.alice 5) ≠ listingFee Scenario.w0 ->
      createMarketItem Scenario.w0 (mkMsg Scenario.alice 5) 777 7 0
      = Revert (Error "Price must be equal to listing price")).
Proof.
  apply (createMarketItem_error_order Scenario.w0 (mkMsg Scenario.alice 5) 777 7 0).
  vm_compute. split; discriminate.
Defined.

(** X3. A call of [cancelMarketItem] that carries ether is rejected before
    anything is read, the function not being payable.  In a reachable state a
    call without ether on an id that was never allocated is rejected for
    non-existence whoever calls and whatever collection is named, and on an
    allocated item with a non-zero token id it is rejected for the caller
    when the caller is not the stored seller, again before the collection is
    called. *)
Theorem cancelMarketItem_error_order (w : State) (caller nft : address) (id : Z) :
  reachable w ->
  (~ (1 <= id <= _marketItemIdCounter w) ->
   cancelMarketItem w (mkMsg caller 0) nft id
   = Revert (Error "Market item has to exist"))
  /\ (tokenId (getItem w id) ≠ 0 -> seller (getItem w id) ≠ caller ->
      cancelMarketItem w (mkMsg caller 0) nft id
      = Revert (Error "You are not the seller"))
  /\ (forall v, v ≠ 0 ->
      cancelMarketItem w (mkMsg caller v) nft id = Revert NotPayable).
Proof.
  intros Hr. pose proof (reachable_inv w Hr) as Hinv. split; [|split].
  - intros Hna. unfold cancelMarketItem.
    destruct (inv_phantom w Hinv id Hna) as (_ & -> & _). done.
  - intros Ht Hs. pose proof (inv_tokenId w Hinv id) as Hge.
    unfold cancelMarketItem. rewrite nonpayable_zero by done.
    cbn [mbind result_bind].
    rewrite (proj2 (Z.ltb_lt 0 _)) by lia. rewrite require_true.
    cbn [mbind result_bind]. by rewrite bool_decide_eq_false_2.
  - intros v Hv. by apply cancelMarketItem_payable.
Qed.

Lemma cancelMarketItem_error_order_witness :
  (~ (1 <= 2 <= _marketItemIdCounter Scenario.w6) ->
   cancelMarketItem Scenario.w6 (mkMsg Scenario.carol 0) Scenario.art 2
   = Revert (Error "Market item has to exist"))
  /\ (tokenId (getItem Scenario.w6 2) ≠ 0 ->
      seller (getItem Scenario.w6 2) ≠ Scenario.carol ->
      cancelMarketItem Scenario.w6 (mkMsg Scenario.carol 0) Scenario.art 2
      = Revert (Error "You are not the seller"))
  /\ (forall v, v ≠ 0 ->
      cancelMarketItem Scenario.w6 (mkMsg Scenario.carol v) Scenario.art 2
      = Revert NotPayable).
Proof.
  apply (cancelMarketItem_error_order Scenario.w6 Scenario.carol Scenario.art 2).
  apply (Scenario_reachable Scenario.history). vm_compute. reflexivity.
Defined.

(** X4. [createMarketItem] accepts token id 0, but the existence probe of
    [cancelMarketItem] reads a stored token id of 0 as "no item": an
    allocated item whose token id is 0 cannot be canceled, in the state where
    it stands nor after any further transactions, by any caller, with any
    collection named and whatever the call carries. *)
Theorem token_zero_item_never_canceled (w : State) (cs : list Call)
    (k : Z) (caller nft : address) :
  forallb wf_call cs = true ->
  1 <= k <= _marketItemIdCounter w ->
  tokenId (getItem w k) = 0 ->
  cancelMarketItem (run w cs) (mkMsg caller 0) nft k
  = Revert (Error "Market item has to exist")
  /\ (forall v, is_revert (cancelMarketItem (run w cs) (mkMsg caller v) nft k) = true).
Proof.
  intros Hwf Hk Ht.
  destruct (run_grows cs w Hwf) as (_ & _ & Hev).
  destruct (Hev k Hk) as (_ & _ & Ht' & _).
  assert (H0 : cancelMarketItem (run w cs) (mkMsg caller 0) nft k
               = Revert (Error "Market item has to exist")).
  { unfold cancelMarketItem. rewrite Ht', Ht. done. }
  split; [done|]. intros v. destruct (decide (v = 0)) as [->|Hv].
  - by rewrite H0.
  - by rewrite cancelMarketItem_payable.
Qed.

Lemma token_zero_item_never_canceled_witness :
  cancelMarketItem (run Scenario.w6 [Scenario.phantom5; Scenario.relist9])
    (mkMsg Scenario.bob 0) Scenario.art 4
  = Revert (Error "Market item has to exist")
  /\ (forall v,
        is_revert (cancelMarketItem
                     (run Scenario.w6 [Scenario.phantom5; Scenario.relist9])
                     (mkMsg Scenario.bob v) Scenario.art 4) = true).
Proof.
  apply (token_zero_item_never_canceled Scenario.w6
           [Scenario.phantom5; Scenario.relist9] 4 Scenario.bob Scenario.art).
  - vm_compute. reflexivity.
  - vm_compute. split; discriminate.
  - vm_compute. reflexivity.
Defined.

(** ** What [fetchAvailableMarketItems] returns in any reachable state *)

Lemma fetchAvailableMarketItems_exact w l :
  ledger_inv w ->
  fetchAvailableMarketItems w = Ok l ->
  l = available w /\ counted w.
Proof.
  intros Hinv H. pose proof (inv_counter w Hinv) as HC.
  pose proof (inv_count w Hinv) as Hle.
  unfold fetchAvailableMarketItems in H. inv_bind H.
  apply checked_sub_Ok in E as [-> HS]. apply checked_sub_Ok in E0 as [-> HK].
  pose proof (available_loop_spec w (Z.to_nat (_marketItemIdCounter w)) 0 []
    (Z.to_nat (_marketItemIdCounter w - _tokensSoldCounter w
               - _tokensCanceledCounter w))) as Hl.
  cbn zeta in Hl. rewrite seqZ_to_nat in Hl.
  change (0 + 1) with 1 in Hl. fold (table w) in Hl. fold (available w) in Hl.
  cbn [app length] in Hl. rewrite Hl in H. case_decide as Hlen; [|done].
  injection H as <-.
  assert (Hc : counted w) by (unfold counted, zero_owner_count in *; lia).
  split; [|done]. unfold counted, zero_owner_count in Hc.
  replace (Z.to_nat _ - length (available w))%nat with 0%nat by lia.
  cbn [replicate]. by rewrite app_nil_r.
Qed.

Lemma available_excludes w k l :
  ledger_inv w -> allocated w k -> owner (getItem w k) ≠ zero_address ->
  fetchAvailableMarketItems w = Ok l ->
  forall it, it ∈ l -> marketItemId it ≠ k.
Proof.
  intros Hinv Hk Ho Hl it Hit Hid.
  apply (fetchAvailableMarketItems_exact w l Hinv) in Hl as [-> _].
  unfold available in Hit. apply list_elem_of_filter in Hit as [Hz Hit].
  apply elem_of_table in Hit as (j & Hj & ->).
  destruct (inv_stored w Hinv j Hj) as (_ & Hjid & _).
  rewrite Hjid in Hid. subst j. done.
Qed.

(** X5. In a reachable state [fetchAvailableMarketItems] returns if and only
    if the created counter minus the sold counter minus the canceled counter
    equals the number of allocated zero-owner records, and otherwise panics;
    when it returns, the result is exactly those records, without padding,
    and each of them is unsold and not canceled, so that the client's
    [!item.sold && !item.canceled] is true of every record it is given. *)
Theorem fetchAvailableMarketItems_reachable (w : State) :
  reachable w ->
  (is_ok (fetchAvailableMarketItems w) = true <->
     _marketItemIdCounter w - _tokensSoldCounter w - _tokensCanceledCounter w
     = Z.of_nat (length (filter zero_owner
                           (getItem w <$> seqZ 1 (_marketItemIdCounter w)))))
  /\ (is_ok (fetchAvailableMarketItems w) = false ->
      exists code, fetchAvailableMarketItems w = Revert (Panic code))
  /\ (forall l,
        fetchAvailableMarketItems w = Ok l ->
        l = filter zero_owner (getItem w <$> seqZ 1 (_marketItemIdCounter w))
        /\ forall it, it ∈ l ->
             sold it = false /\ canceled it = false
             /\ owner it = zero_address
             /\ 1 <= marketItemId it <= _marketItemIdCounter w
             /\ getItem w (marketItemId it) = it).
Proof.
  intros Hr. pose proof (reachable_inv w Hr) as Hinv.
  pose proof (inv_counter w Hinv) as HC. pose proof (inv_canceled w Hinv) as HK.
  fold (table w). fold (available w). fold (zero_owner_count w). fold (counted w).
  split; [|split].
  - split.
    + intros [l Hl]%is_ok_true. by apply (fetchAvailableMarketItems_exact w l).
    + intros Hc. apply is_ok_true. exists (available w).
      apply fetchAvailableMarketItems_counted; [lia | done |].
      unfold counted, zero_owner_count in Hc. lia.
  - intros Hno. unfold fetchAvailableMarketItems, checked_sub in *.
    destruct (Z.leb_spec (_tokensSoldCounter w) (_marketItemIdCounter w));
      [|by eexists].
    cbn [mbind result_bind] in *.
    destruct (Z.leb_spec (_tokensCanceledCounter w)
                (_marketItemIdCounter w - _tokensSoldCounter w)); [|by eexists].
    cbn [mbind result_bind] in *.
    pose proof (available_loop_spec w (Z.to_nat (_marketItemIdCounter w)) 0 []
      (Z.to_nat (_marketItemIdCounter w - _tokensSoldCounter w
                 - _tokensCanceledCounter w))) as Hl.
    cbn zeta in Hl. cbn [app length] in Hl. rewrite Hl in *.
    case_decide; [done | by eexists].
  - intros l Hl. apply (fetchAvailableMarketItems_exact w l Hinv) in Hl as [-> _].
    split; [done|]. intros it [Hz Hit]%list_elem_of_filter.
    apply elem_of_table in Hit as (k & Hk & ->).
    destruct (inv_stored w Hinv k Hk) as (_ & Hid & _).
    destruct (proj1 (inv_terminal w Hinv k Hk) Hz) as [Hs Hcn].
    rewrite Hid. done.
Qed.

Lemma fetchAvailableMarketItems_reachable_witness :
  (is_ok (fetchAvailableMarketItems Scenario.w7) = true <->
     _marketItemIdCounter Scenario.w7 - _tokensSoldCounter Scenario.w7
     - _tokensCanceledCounter Scenario.w7
     = Z.of_nat (length (filter zero_owner
                           (getItem Scenario.w7
                              <$> seqZ 1 (_marketItemIdCounter Scenario.w7)))))
  /\ (is_ok (fetchAvailableMarketItems Scenario.w7) = false ->
      exists code, fetchAvailableMarketItems Scenario.w7 = Revert (Panic code))
  /\ (forall l,
        fetchAvailableMarketItems Scenario.w7 = Ok l ->
        l = filter zero_owner
              (getItem Scenario.w7 <$> seqZ 1 (_marketItemIdCounter Scenario.w7))
        /\ forall it, it ∈ l ->
             sold it = false /\ canceled it = false
             /\ owner it = zero_address
             /\ 1 <= marketItemId it <= _marketItemIdCounter Scenario.w7
             /\ getItem Scenario.w7 (marketItemId it) = it).
Proof.
  apply (fetchAvailableMarketItems_reachable Scenario.w7).
  apply (Scenario_reachable (Scenario.history ++ [Scenario.phantom5])).
  vm_compute. reflexivity.
Defined.

(** ** Leaving and entering the available list *)

(** X6. After a sale of an allocated item has gone through, no record that
    [fetchAvailableMarketItems] returns carries the item's id, and the sold
    counter has grown by exactly one. *)
Theorem createMarketSale_leaves_available (w : State) (msg : Msg) (nft : address)
    (id : Z) (w' : State) :
  reachable w ->
  wf_call (CreateMarketSale msg nft id) = true ->
  1 <= id <= _marketItemIdCounter w ->
  createMarketSale w msg nft id = Ok w' ->
  _tokensSoldCounter w' = _tokensSoldCounter w + 1
  /\ forall l, fetchAvailableMarketItems w' = Ok l ->
               forall it, it ∈ l -> marketItemId it ≠ id.
Proof.
  intros Hr Hwf Hid H. pose proof (reachable_inv w Hr) as Hinv.
  assert (Hinv' : ledger_inv w').
  { apply (ledger_inv_step w); [|done].
    by apply (call_ledger_step w (CreateMarketSale msg nft id)). }
  apply wf_sale in Hwf.
  apply createMarketSale_Ok in H
    as (c & c' & _ & _ & _ & _ & _ & _ & _ & _ & _ & Hw').
  split; [by subst w'|].
  intros l Hl. apply (available_excludes w' id l Hinv'); [| |done].
  - subst w'. done.
  - subst w'. autorewrite with state. done.
Qed.

Lemma createMarketSale_leaves_available_witness :
  _tokensSoldCounter Scenario.w2 = _tokensSoldCounter Scenario.w1 + 1
  /\ forall l, fetchAvailableMarketItems Scenario.w2 = Ok l ->
               forall it, it ∈ l -> marketItemId it ≠ 1.
Proof.
  apply (createMarketSale_leaves_available Scenario.w1 (mkMsg Scenario.bob 100)
           Scenario.art 1 Scenario.w2).
  - apply (Scenario_reachable [Scenario.list7]). vm_compute. reflexivity.
  - vm_compute. reflexivity.
  - vm_compute. split; discriminate.
  - vm_compute. reflexivity.
Defined.

(** X7. An allocated item whose owner is no longer the zero address never
    gets the zero address as owner again, whatever well-formed transactions
    follow, and no later result of [fetchAvailableMarketItems] carries its
    id: a sale or a cancellation is final for the available list. *)
Theorem unavailable_item_stays_unavailable (w : State) (cs : list Call) (k : Z) :
  reachable w ->
  forallb wf_call cs = true ->
  1 <= k <= _marketItemIdCounter w ->
  owner (getItem w k) ≠ zero_address ->
  owner (getItem (run w cs) k) ≠ zero_address
  /\ forall l, fetchAvailableMarketItems (run w cs) = Ok l ->
               forall it, it ∈ l -> marketItemId it ≠ k.
Proof.
  intros Hr Hwf Hk Ho.
  pose proof (reachable_inv w Hr) as Hinv.
  pose proof (reachable_inv _ (reachable_run w cs Hr Hwf)) as Hinv'.
  destruct (run_grows cs w Hwf) as (HC & _ & Hev).
  destruct (Hev k Hk) as (_ & _ & _ & _ & _ & _ & Hs & Hcn).
  assert (Hk' : allocated (run w cs) k) by (unfold allocated; lia).
  assert (Ho' : owner (getItem (run w cs) k) ≠ zero_address).
  { intros Hz. apply (inv_terminal _ Hinv' k Hk') in Hz as [Hs' Hcn'].
    apply Ho. apply (inv_terminal w Hinv k Hk).
    destruct (sold (getItem w k)); [by rewrite Hs in Hs'|].
    destruct (canceled (getItem w k)); [by rewrite Hcn in Hcn'|]. done. }
  split; [done|]. intros l Hl. by apply (available_excludes (run w cs) k l).
Qed.

Lemma unavailable_item_stays_unavailable_witness :
  owner (getItem (run Scenario.w2
                    [Scenario.relist7; Scenario.buy1 Scenario.carol;
                     Scenario.list9]) 1) ≠ zero_address
  /\ forall l,
       fetchAvailableMarketItems
         (run Scenario.w2
            [Scenario.relist7; Scenario.buy1 Scenario.carol; Scenario.list9])
       = Ok l ->
       forall it, it ∈ l -> marketItemId it ≠ 1.
Proof.
  apply (unavailable_item_stays_unavailable Scenario.w2
           [Scenario.relist7; Scenario.buy1 Scenario.carol; Scenario.list9] 1).
  - apply (Scenario_reachable [Scenario.list7; Scenario.buy1 Scenario.bob]).
    vm_compute. reflexivity.
  - vm_compute. reflexivity.
  - vm_compute. split; discriminate.
  - vm_compute. discriminate.
Defined.

(** X8. In a state whose counters are exact (as after a valid trace), a
    listing that goes through appends the new record to what
    [fetchAvailableMarketItems] returns and leaves the rest of the result as
    it was. *)
Theorem createMarketItem_appends_available (w : State) (msg : Msg) (nft : address)
    (tid askPrice id : Z) (w' : State) (l : list MarketItem) :
  reachable w ->
  fetchAvailableMarketItems w = Ok l ->
  createMarketItem w msg nft tid askPrice = Ok (id, w') ->
  fetchAvailableMarketItems w' = Ok (l ++ [getItem w' id])
  /\ marketItemId (getItem w' id) = id
  /\ tokenId (getItem w' id) = tid
  /\ price (getItem w' id) = askPrice
  /\ seller (getItem w' id) = sender msg.
Proof.
  intros Hr Hl H. pose proof (reachable_inv w Hr) as Hinv.
  pose proof (inv_counter w Hinv) as HC. pose proof (inv_canceled w Hinv) as HK.
  apply (fetchAvailableMarketItems_exact w l Hinv) in Hl as [-> Hc].
  apply createMarketItem_Ok in H as (c & c' & _ & _ & _ & -> & Hle & _ & _ & ->).
  autorewrite with state.
  match goal with |- fetchAvailableMarketItems ?s = Ok (_ ++ [?x]) /\ _ =>
    set (w' := s); set (it := x) end.
  split; [|done].
  assert (Ht : table w' = table w ++ [it])
    by (apply table_create; [lia | reflexivity | reflexivity]).
  assert (Ha : available w' = available w ++ [it]).
  { unfold available. rewrite Ht, filter_app.
    by rewrite (filter_cons_True zero_owner). }
  rewrite <- Ha. apply fetchAvailableMarketItems_counted.
  - simpl. lia.
  - unfold counted, zero_owner_count in *. rewrite Ha, length_app. simpl. lia.
  - unfold counted, zero_owner_count in Hc. simpl. lia.
Qed.

Lemma createMarketItem_appends_available_witness :
  fetchAvailableMarketItems Scenario.w6
  = Ok (available Scenario.w5 ++ [getItem Scenario.w6 4])
  /\ marketItemId (getItem Scenario.w6 4) = 4
  /\ tokenId (getItem Scenario.w6 4) = 0
  /\ price (getItem Scenario.w6 4) = 40
  /\ seller (getItem Scenario.w6 4) = Scenario.bob.
Proof.
  apply (createMarketItem_appends_available Scenario.w5
           (mkMsg Scenario.bob Scenario.fee) Scenario.art 0 40 4 Scenario.w6
           (available Scenario.w5)).
  - apply (Scenario_reachable
             [Scenario.list7; Scenario.buy1 Scenario.bob; Scenario.relist7;
              Scenario.list9; Scenario.cancel3]).
    vm_compute. reflexivity.
  - vm_compute. reflexivity.
  - vm_compute. reflexivity.
Defined.

(** X9. Listing then looking up: right after a listing has gone through,
    [getLatestMarketItemByTokenId] for the listed token returns the new
    record with the flag true, shadowing every earlier listing of that
    token. *)
Theorem createMarketItem_then_latest (w : State) (msg : Msg) (nft : address)
    (tid askPrice id : Z) (w' : State) :
  0 <= _marketItemIdCounter w ->
  createMarketItem w msg nft tid askPrice = Ok (id, w') ->
  exists creator_,
    getLatestMarketItemByTokenId w' tid
    = (mkMarketItem id nft tid creator_ (sender msg) zero_address askPrice
         false false, true)
    /\ id = _marketItemIdCounter w + 1.
Proof.
  intros HC H.
  apply createMarketItem_Ok in H as (c & c' & _ & _ & _ & -> & Hle & _ & _ & ->).
  exists (getTokenCreatorById c tid). split; [|done].
  unfold getLatestMarketItemByTokenId. simpl _marketItemIdCounter.
  replace (Z.to_nat (_marketItemIdCounter w + 1))
    with (S (Z.to_nat (_marketItemIdCounter w))) by lia.
  cbn [latest_loop]. rewrite Nat2Z.inj_succ, Z2Nat.id by done.
  replace (Z.succ (_marketItemIdCounter w)) with (_marketItemIdCounter w + 1) by lia.
  autorewrite with state. simpl. by rewrite Z.eqb_refl.
Qed.

Lemma createMarketItem_then_latest_witness :
  exists creator_,
    getLatestMarketItemByTokenId Scenario.w3 7
    = (mkMarketItem 2 Scenario.art 7 creator_ Scenario.bob zero_address 250
         false false, true)
    /\ 2 = _marketItemIdCounter Scenario.w2 + 1.
Proof.
  apply (createMarketItem_then_latest Scenario.w2 (mkMsg Scenario.bob Scenario.fee)
           Scenario.art 7 250 2 Scenario.w3).
  - vm_compute. discriminate.
  - vm_compute. reflexivity.
Defined.

(** ** The event log *)

Lemma call_events w c w' :
  call w c = Ok w' ->
  match c with
  | CreateMarketItem _ _ _ _ =>
      exists e, events w' = events w ++ [e]
                /\ created_id e = Some (_marketItemIdCounter w + 1)
                /\ sold_id e = None /\ canceled_id e = None
                /\ _marketItemIdCounter w' = _marketItemIdCounter w + 1
                /\ _tokensSoldCounter w' = _tokensSoldCounter w
                /\ _tokensCanceledCounter w' = _tokensCanceledCounter w
  | CancelMarketItem _ _ id =>
      exists e, events w' = events w ++ [e]
                /\ created_id e = None /\ sold_id e = None
                /\ canceled_id e = Some id
                /\ _marketItemIdCounter w' = _marketItemIdCounter w
                /\ _tokensSoldCounter w' = _tokensSoldCounter w
                /\ _tokensCanceledCounter w' = _tokensCanceledCounter w + 1
  | CreateMarketSale _ _ id =>
      exists e, events w' = events w ++ [e]
                /\ created_id e = None /\ sold_id e = Some id
                /\ canceled_id e = None
                /\ _marketItemIdCounter w' = _marketItemIdCounter w
                /\ _tokensSoldCounter w' = _tokensSoldCounter w + 1
                /\ _tokensCanceledCounter w' = _tokensCanceledCounter w
  | Outside _ _ _ =>
      events w' = events w
      /\ _marketItemIdCounter w' = _marketItemIdCounter w
      /\ _tokensSoldCounter w' = _tokensSoldCounter w
      /\ _tokensCanceledCounter w' = _tokensCanceledCounter w
  end.
Proof.
  intros H. destruct c as [msg nft tid p | msg nft id | msg nft id | b r cs];
    simpl in H.
  - inv_bind H. destruct a as [id w1]. injection H as <-.
    apply createMarketItem_Ok in E as (c & c' & _ & _ & _ & -> & _ & _ & _ & ->).
    eexists. by repeat split.
  - apply cancelMarketItem_Ok in H as (c & c' & _ & _ & _ & _ & _ & ->).
    eexists. by repeat split.
  - apply createMarketSale_Ok in H
      as (c & c' & _ & _ & _ & _ & _ & _ & _ & _ & _ & ->).
    eexists. by repeat split.
  - injection H as <-. done.
Qed.

Lemma exec_event_log w c :
  0 <= _marketItemIdCounter w ->
  omap created_id (events w) = seqZ 1 (_marketItemIdCounter w) ->
  Z.of_nat (length (omap sold_id (events w))) = _tokensSoldCounter w ->
  Z.of_nat (length (omap canceled_id (events w))) = _tokensCanceledCounter w ->
  0 <= _marketItemIdCounter (exec w c)
  /\ omap created_id (events (exec w c)) = seqZ 1 (_marketItemIdCounter (exec w c))
  /\ Z.of_nat (length (omap sold_id (events (exec w c))))
     = _tokensSoldCounter (exec w c)
  /\ Z.of_nat (length (omap canceled_id (events (exec w c))))
     = _tokensCanceledCounter (exec w c).
Proof.
  intros HC Hcr Hso Hca. unfold exec.
  destruct (call w c) as [w'|] eqn:E; [|done].
  apply call_events in E.
  destruct c as [msg nft tid p | msg nft id | msg nft id | b r cs].
  - destruct E as (e & -> & He1 & He2 & He3 & -> & -> & ->).
    rewrite !omap_app. cbn [omap list_omap]. rewrite He1, He2, He3.
    rewrite !app_nil_r. split; [lia|]. split; [|done].
    rewrite Hcr.
    rewrite <- (Z2Nat.id (_marketItemIdCounter w)) at 3 by done.
    rewrite <- (Nat2Z.inj_add _ 1), Nat.add_1_r, seqZ_S, Z2Nat.id by done.
    do 2 f_equal. lia.
  - destruct E as (e & -> & He1 & He2 & He3 & -> & -> & ->).
    rewrite !omap_app. cbn [omap list_omap]. rewrite He1, He2, He3.
    rewrite !app_nil_r, length_app. simpl. repeat split; (done || lia).
  - destruct E as (e & -> & He1 & He2 & He3 & -> & -> & ->).
    rewrite !omap_app. cbn [omap list_omap]. rewrite He1, He2, He3.
    rewrite !app_nil_r, length_app. simpl. repeat split; (done || lia).
  - destruct E as (-> & -> & -> & ->). done.
Qed.

(** X10. The event log mirrors the counters: after any transactions from
    deployment, the ids carried by the creation events are, in log order,
    1 up to the created counter, and there are as many sale events as the
    sold counter and as many cancellation events as the canceled counter
    count; a rejected transaction leaves no event. *)
Theorem event_log_matches_counters
    (deployer self : address) (b : gmap address Z) (r : gset address)
    (cols : gmap address Collection) (cs : list Call) :
  let w := run (constructor deployer self b r cols) cs in
  omap created_id (events w) = seqZ 1 (_marketItemIdCounter w)
  /\ Z.of_nat (length (omap sold_id (events w))) = _tokensSoldCounter w
  /\ Z.of_nat (length (omap canceled_id (events w))) = _tokensCanceledCounter w.
Proof.
  intros w.
  assert (H : forall cs w,
    0 <= _marketItemIdCounter w ->
    omap created_id (events w) = seqZ 1 (_marketItemIdCounter w) ->
    Z.of_nat (length (omap sold_id (events w))) = _tokensSoldCounter w ->
    Z.of_nat (length (omap canceled_id (events w))) = _tokensCanceledCounter w ->
    omap created_id (events (run w cs)) = seqZ 1 (_marketItemIdCounter (run w cs))
    /\ Z.of_nat (length (omap sold_id (events (run w cs))))
       = _tokensSoldCounter (run w cs)
    /\ Z.of_nat (length (omap canceled_id (events (run w cs))))
       = _tokensCanceledCounter (run w cs)).
  { clear. induction cs as [|c cs IH]; intros w HC Hcr Hso Hca; [done|].
    unfold run; cbn [foldl]. fold (run (exec w c) cs).
    destruct (exec_event_log w c HC Hcr Hso Hca) as (? & ? & ? & ?).
    by apply IH. }
  by apply H.
Qed.

(** ** The listing fee *)

Lemma createMarketItem_balances w msg nft tid askPrice id w' :
  createMarketItem w msg nft tid askPrice = Ok (id, w') ->
  forall a,
    balanceOf w' a
    = balanceOf w a - ind (a = sender msg) * listingFee w
      + ind (a = this w) * listingFee w.
Proof.
  intros H a.
  apply createMarketItem_Ok in H as (c & c' & _ & _ & Hf & _ & _ & _ & _ & ->).
  repeat (autorewrite with state; rewrite ?balanceOf_move).
  rewrite <- Hf. unfold ind. repeat case_decide; lia.
Qed.

Lemma cancelMarketItem_balances w msg nft id w' :
  cancelMarketItem w msg nft id = Ok w' -> balances w' = balances w.
Proof.
  intros H.
  apply cancelMarketItem_Ok in H as (c & c' & _ & _ & _ & _ & _ & ->). done.
Qed.

(** X11. The listing fee is taken from the seller into the contract's
    balance when the listing goes through, and a cancellation gives nothing
    back: [cancelMarketItem] moves no ether at all, so the fee of a canceled
    listing stays in the contract (nor can the cancellation itself carry
    any: the function is not payable). *)
Theorem listing_fee_not_refunded (w : State) (msg : Msg) (nft : address)
    (tid askPrice id : Z) (w1 : State) (v' : Z) (nft' : address) (w2 : State) :
  createMarketItem w msg nft tid askPrice = Ok (id, w1) ->
  cancelMarketItem w1 (mkMsg (sender msg) v') nft' id = Ok w2 ->
  (forall a,
     balanceOf w1 a
     = balanceOf w a - ind (a = sender msg) * listingFee w
       + ind (a = this w) * listingFee w)
  /\ balances w2 = balances w1
  /\ (sender msg ≠ this w ->
      balanceOf w2 (sender msg) = balanceOf w (sender msg) - listingFee w
      /\ balanceOf w2 (this w) = balanceOf w (this w) + listingFee w).
Proof.
  intros H1 H2.
  pose proof (createMarketItem_balances _ _ _ _ _ _ _ H1) as Hb1.
  pose proof (cancelMarketItem_balances _ _ _ _ _ H2) as Hb2.
  split; [done|]. split; [done|]. intros Hne.
  unfold balanceOf at 1 3. rewrite Hb2. fold (balanceOf w1 (sender msg)).
  fold (balanceOf w1 (this w)). rewrite !Hb1. unfold ind.
  rewrite (decide_True (P := sender msg = sender msg)) by done.
  rewrite (decide_False (P := sender msg = this w)) by done.
  rewrite (decide_True (P := this w = this w)) by done.
  rewrite (decide_False (P := this w = sender msg)) by done. lia.
Qed.

Lemma listing_fee_not_refunded_witness :
  (forall a,
     balanceOf Scenario.w4 a
     = balanceOf Scenario.w3 a
       - ind (a = Scenario.bob) * listingFee Scenario.w3
       + ind (a = this Scenario.w3) * listingFee Scenario.w3)
  /\ balances Scenario.w5 = balances Scenario.w4
  /\ (Scenario.bob ≠ this Scenario.w3 ->
      balanceOf Scenario.w5 Scenario.bob
      = balanceOf Scenario.w3 Scenario.bob - listingFee Scenario.w3
      /\ balanceOf Scenario.w5 (this Scenario.w3)
         = balanceOf Scenario.w3 (this Scenario.w3) + listingFee Scenario.w3).
Proof.
  apply (listing_fee_not_refunded Scenario.w3 (mkMsg Scenario.bob Scenario.fee)
           Scenario.art 9 30 3 Scenario.w4 0 Scenario.art Scenario.w5).
  - vm_compute. reflexivity.
  - vm_compute. reflexivity.
Defined.

(** ** The contract's balance when ether reaches it through its entry points only *)

Lemma closed_inv_call self b0 w c w' :
  ledger_call w c = true -> call w c = Ok w' ->
  closed_inv self b0 w -> closed_inv self b0 w'.
Proof.
  intros Hlc H [Ht Ho Hs Hb Hn]. unfold ledger_call in Hlc.
  apply andb_true_iff in Hlc as [Hwf Hne].
  destruct (call_immutables w c w' H) as (Eo & Ef & Et).
  destruct c as [msg nft tid p | msg nft id | msg nft id | b r cs];
    [ apply negb_true_iff, bool_decide_eq_false in Hne
    | apply negb_true_iff, bool_decide_eq_false in Hne
    | apply negb_true_iff, bool_decide_eq_false in Hne
    | apply bool_decide_eq_true in Hne ]; simpl in H.
  - (* a listing: the fee comes in *)
    inv_bind H. destruct a as [id w1]. injection H as <-.
    pose proof (createMarketItem_balances _ _ _ _ _ _ _ E self) as Hbal.
    unfold ind in Hbal.
    rewrite decide_False, decide_True in Hbal by congruence.
    apply createMarketItem_Ok in E as (c & c' & Hv & _ & Hf & -> & _ & _ & _ & Hw').
    split; try congruence.
    + intros k. subst w1. autorewrite with state. rewrite getItem_set_item.
      case_decide; [simpl; congruence | apply Hs].
    + rewrite Hbal, Hb, Ef. subst w1. simpl. lia.
    + rewrite Hbal. lia.
  - (* a cancellation: no ether moves *)
    pose proof (cancelMarketItem_balances _ _ _ _ _ H) as Hbal.
    apply cancelMarketItem_Ok in H as (c & c' & _ & _ & _ & _ & _ & Hw').
    assert (Hbo : balanceOf w' self = balanceOf w self)
      by (unfold balanceOf; by rewrite Hbal).
    split; try congruence.
    + intros k. subst w'. autorewrite with state. rewrite getItem_set_item.
      case_decide; [subst k; simpl; apply Hs | apply Hs].
    + rewrite Hbo, Hb, Ef. subst w'. done.
  - (* a sale: the payment passes through, the fee goes out *)
    pose proof (createMarketSale_balances _ _ _ _ _ H self) as Hbal.
    unfold ind in Hbal.
    rewrite (decide_False (P := self = sender msg)) in Hbal by congruence.
    rewrite (decide_False (P := self = seller (getItem w id))) in Hbal
      by (intros Heq; by apply (Hs id)).
    rewrite (decide_False (P := self = contractOwner w)) in Hbal by congruence.
    rewrite (decide_True (P := self = this w)) in Hbal by congruence.
    apply createMarketSale_Ok in H
      as (c & c' & Hv & _ & _ & _ & _ & _ & _ & Hfee & _ & Hw').
    rewrite balanceOf_move in Hfee. autorewrite with state in Hfee.
    rewrite balanceOf_move in Hfee.
    rewrite (decide_True (P := this w = this w)) in Hfee by done.
    rewrite (decide_False (P := this w = seller (getItem w id))) in Hfee
      by (rewrite Ht; intros Heq; by apply (Hs id)).
    rewrite (decide_False (P := this w = sender msg)) in Hfee by congruence.
    rewrite Ht in Hfee.
    split; try congruence.
    + intros k. subst w'. autorewrite with state. rewrite getItem_set_item.
      case_decide; [subst k; simpl; apply Hs | apply Hs].
    + rewrite Hbal, Hb, Ef. subst w'. simpl. lia.
    + rewrite Hbal. lia.
  - (* another transaction: the contract's balance is as it was *)
    injection H as <-.
    assert (Hbo : balanceOf (set_environment b r cs w) self = balanceOf w self).
    { unfold balanceOf at 1. simpl. rewrite <- Ht. exact Hne. }
    split; [done | done | exact Hs | by rewrite Hbo | by rewrite Hbo].
Qed.

Lemma closed_inv_run self b0 cs :
  forall w, closed_trace w cs = true -> closed_inv self b0 w ->
            closed_inv self b0 (run w cs).
Proof.
  induction cs as [|c cs IH]; intros w Htr Hinv; [done|].
  cbn [closed_trace] in Htr. apply andb_true_iff in Htr as [Hc Hcs].
  unfold run; cbn [foldl]. fold (run (exec w c) cs). apply IH; [done|].
  unfold exec. destruct (call w c) as [w'|] eqn:E; [|done].
  by apply (closed_inv_call self b0 w c).
Qed.

(** X12. As long as ether reaches and leaves the contract through its three
    entry points only, called by accounts other than itself, and whatever
    else happens on the chain in between (mints, approvals, transfers between
    other accounts), its balance is the balance it was deployed with plus one
    listing fee for every listing created and minus one for every sale:
    every sale, of whatever id, pays out the fee of some listing.  If the
    contract was deployed with less than one fee, the sold counter therefore
    never exceeds the created counter. *)
Theorem closed_ledger_balance
    (deployer self : address) (b : gmap address Z) (r : gset address)
    (cols : gmap address Collection) (cs : list Call) :
  self ≠ zero_address ->
  deployer ≠ self ->
  0 <= default 0 (b !! self) ->
  closed_trace (constructor deployer self b r cols) cs = true ->
  let w := run (constructor deployer self b r cols) cs in
  balanceOf w self
  = default 0 (b !! self)
    + getListingFee w * (_marketItemIdCounter w - _tokensSoldCounter w)
  /\ 0 <= balanceOf w self
  /\ (default 0 (b !! self) < getListingFee w ->
      _tokensSoldCounter w <= _marketItemIdCounter w).
Proof.
  intros Hself Hdep Hb0 Htr w.
  assert (Hinit : closed_inv self (default 0 (b !! self))
                    (constructor deployer self b r cols)).
  { split; simpl;
      [ done | done
      | intros k; unfold getItem; simpl; rewrite lookup_empty; simpl; congruence
      | unfold balanceOf; simpl; lia
      | unfold balanceOf; simpl; done ]. }
  destruct (closed_inv_run self _ cs _ Htr Hinit) as [_ _ _ Hbal Hnn].
  fold w in Hbal, Hnn. unfold getListingFee.
  split; [done|]. split; [done|]. intros Hlt.
  destruct (run_immutables cs (constructor deployer self b r cols)) as (_ & Hf & _).
  fold w in Hf. simpl in Hf. rewrite Hf in *. nia.
Qed.

Lemma closed_ledger_balance_witness :
  let w := run Flow.u0 Flow.history in
  balanceOf w Scenario.market
  = default 0 (Flow.funds !! Scenario.market)
    + getListingFee w * (_marketItemIdCounter w - _tokensSoldCounter w)
  /\ 0 <= balanceOf w Scenario.market
  /\ (default 0 (Flow.funds !! Scenario.market) < getListingFee w ->
      _tokensSoldCounter w <= _marketItemIdCounter w).
Proof.
  apply (closed_ledger_balance Scenario.deployer Scenario.market Flow.funds ∅
           {[ Scenario.art := Flow.art1 ]} Flow.history).
  - vm_compute. discriminate.
  - vm_compute. discriminate.
  - vm_compute. discriminate.
  - vm_compute. reflexivity.
Defined.

(** The trace of that instance is the client's own way of listing: dave
    approves the ledger for token 5 and lists it, which is rejected without
    the approval; erin pays dave three wei on the side; alice buys. *)
Remark approve_then_list :
  is_revert (call Flow.u0 Flow.list5) = true
  /\ is_ok (call Flow.u1 Flow.list5) = true
  /\ closed_trace Flow.u0 Flow.history = true
  /\ _marketItemIdCounter (run Flow.u0 Flow.history) = 1
  /\ _tokensSoldCounter (run Flow.u0 Flow.history) = 1
  /\ (c ← collections (run Flow.u0 Flow.history) !! Scenario.art; holders c !! 5)
     = Some Scenario.alice.
Proof. repeat split; vm_compute; reflexivity. Qed.

(** ** The two role queries *)

(** X13. In a reachable state [fetchOwnedMarketItems] never reverts; for a
    caller other than the zero address every record it returns is an
    allocated item that has been sold or canceled, with the caller as its
    owner, and none of them is among the zero-owner records that
    [fetchAvailableMarketItems] draws from: "owned" items are the ones the
    caller bought or took back. *)
Theorem fetchOwnedMarketItems_terminal (w : State) (caller : address) :
  reachable w ->
  caller ≠ zero_address ->
  exists l,
    fetchOwnedMarketItems w caller = Ok l
    /\ l = filter (fun it => owner it = caller)
             (getItem w <$> seqZ 1 (_marketItemIdCounter w))
    /\ forall it, it ∈ l ->
         owner it = caller
         /\ (sold it = true \/ canceled it = true)
         /\ 1 <= marketItemId it <= _marketItemIdCounter w
         /\ getItem w (marketItemId it) = it
         /\ it ∉ available w.
Proof.
  intros Hr Hc. pose proof (reachable_inv w Hr) as Hinv.
  eexists. split; [|split; [reflexivity|]].
  - unfold fetchOwnedMarketItems.
    by rewrite fetchMarketItemsByAddressProperty_valid.
  - intros it [Ho Hit]%list_elem_of_filter.
    apply elem_of_table in Hit as (k & Hk & ->).
    destruct (inv_stored w Hinv k Hk) as (_ & Hid & _). rewrite Hid.
    split; [done|]. split; [|split; [done|split; [done|]]].
    + destruct (sold (getItem w k)) eqn:Es; [by left|].
      destruct (canceled (getItem w k)) eqn:Ec; [by right|].
      exfalso. apply Hc. rewrite <- Ho. by apply (inv_terminal w Hinv k Hk).
    + unfold available. intros [Hz _]%list_elem_of_filter.
      unfold zero_owner in Hz. congruence.
Qed.

Lemma fetchOwnedMarketItems_terminal_witness :
  exists l,
    fetchOwnedMarketItems Scenario.w6 Scenario.bob = Ok l
    /\ l = filter (fun it => owner it = Scenario.bob)
             (getItem Scenario.w6 <$> seqZ 1 (_marketItemIdCounter Scenario.w6))
    /\ forall it, it ∈ l ->
         owner it = Scenario.bob
         /\ (sold it = true \/ canceled it = true)
         /\ 1 <= marketItemId it <= _marketItemIdCounter Scenario.w6
         /\ getItem Scenario.w6 (marketItemId it) = it
         /\ it ∉ available Scenario.w6.
Proof.
  apply (fetchOwnedMarketItems_terminal Scenario.w6 Scenario.bob).
  - apply (Scenario_reachable Scenario.history). vm_compute. reflexivity.
  - vm_compute. discriminate.
Defined.

Lemma filter_ids_evolve (P : address -> Prop) `{!forall a, Decision (P a)}
    (w w' : State) (ks : list Z) :
  (forall k, k ∈ ks -> item_evolves (getItem w k) (getItem w' k)) ->
  marketItemId <$> filter (fun it => P (seller it)) (getItem w' <$> ks)
  = marketItemId <$> filter (fun it => P (seller it)) (getItem w <$> ks).
Proof.
  induction ks as [|k ks IH]; intros Hev; [done|].
  rewrite !fmap_cons, !filter_cons.
  destruct (Hev k) as (Hid & _ & _ & _ & Hs & _); [by left|].
  rewrite Hs.
  assert (IH' := IH (fun j Hj => Hev j (list_elem_of_further _ _ _ Hj))).
  destruct (decide (P (seller (getItem w k)))); [|done].
  rewrite !fmap_cons. by rewrite Hid, IH'.
Qed.

(** X14. [fetchSellingMarketItems] returns every item the caller ever
    listed, sold and canceled ones included, and its result only grows:
    after any well-formed transactions the ids it returned before are a
    prefix of the ids it returns. *)
Theorem fetchSellingMarketItems_grows (w : State) (cs : list Call)
    (caller : address) :
  reachable w ->
  forallb wf_call cs = true ->
  exists l l',
    fetchSellingMarketItems w caller = Ok l
    /\ fetchSellingMarketItems (run w cs) caller = Ok l'
    /\ (forall k, 1 <= k <= _marketItemIdCounter w ->
                  seller (getItem w k) = caller -> getItem w k ∈ l)
    /\ (marketItemId <$> l) `prefix_of` (marketItemId <$> l').
Proof.
  intros Hr Hwf. pose proof (reachable_inv w Hr) as Hinv.
  pose proof (inv_counter w Hinv) as HC.
  destruct (run_grows cs w Hwf) as (HC' & _ & Hev).
  unfold fetchSellingMarketItems.
  rewrite !fetchMarketItemsByAddressProperty_valid by done.
  eexists _, _. split; [reflexivity|]. split; [reflexivity|]. split.
  - intros k Hk Hs. apply list_elem_of_filter. split; [done|].
    apply elem_of_table. by exists k.
  - unfold table at 2.
    replace (_marketItemIdCounter (run w cs))
      with (_marketItemIdCounter w
            + (_marketItemIdCounter (run w cs) - _marketItemIdCounter w)) by lia.
    rewrite seqZ_app, fmap_app, filter_app, fmap_app by lia.
    eexists. f_equal.
    refine (filter_ids_evolve (fun a => a = caller) w (run w cs) _ _).
    intros k Hk%elem_of_seqZ. apply Hev. unfold allocated. lia.
Qed.

Lemma fetchSellingMarketItems_grows_witness :
  exists l l',
    fetchSellingMarketItems Scenario.w3 Scenario.bob = Ok l
    /\ fetchSellingMarketItems
         (run Scenario.w3 [Scenario.list9; Scenario.cancel3; Scenario.list0])
         Scenario.bob = Ok l'
    /\ (forall k, 1 <= k <= _marketItemIdCounter Scenario.w3 ->
                  seller (getItem Scenario.w3 k) = Scenario.bob ->
                  getItem Scenario.w3 k ∈ l)
    /\ (marketItemId <$> l) `prefix_of` (marketItemId <$> l').
Proof.
  apply (fetchSellingMarketItems_grows Scenario.w3
           [Scenario.list9; Scenario.cancel3; Scenario.list0] Scenario.bob).
  - apply (Scenario_reachable
             [Scenario.list7; Scenario.buy1 Scenario.bob; Scenario.relist7]).
    vm_compute. reflexivity.
  - vm_compute. reflexivity.
Defined.

(** ** Custody of the token *)

Lemma createMarketSale_custody w msg nft id w' :
  createMarketSale w msg nft id = Ok w' ->
  exists c c',
    collections w !! nft = Some c
    /\ holders c !! tokenId (getItem w id) = Some (this w)
    /\ collections w' !! nft = Some c'
    /\ holders c' !! tokenId (getItem w id) = Some (sender msg)
    /\ tokenId (getItem w' id) = tokenId (getItem w id)
    /\ this w' = this w.
Proof.
  intros H.
  apply createMarketSale_Ok in H
    as (c & c' & _ & _ & _ & _ & Hc & Htr & _ & _ & _ & ->).
  apply transferFrom_Ok in Htr as (_ & Hh & _ & Hh').
  exists c, c'. autorewrite with state.
  repeat split; try done. simpl. apply lookup_insert_eq.
Qed.

Lemma cancelMarketItem_custody w msg nft id w' :
  cancelMarketItem w msg nft id = Ok w' ->
  exists c c',
    collections w !! nft = Some c
    /\ holders c !! tokenId (getItem w id) = Some (this w)
    /\ collections w' !! nft = Some c'
    /\ holders c' !! tokenId (getItem w id) = Some (sender msg)
    /\ tokenId (getItem w' id) = tokenId (getItem w id)
    /\ this w' = this w.
Proof.
  intros H.
  apply cancelMarketItem_Ok in H as (c & c' & _ & _ & Hc & Htr & _ & ->).
  apply transferFrom_Ok in Htr as (_ & Hh & _ & Hh').
  exists c, c'. autorewrite with state.
  repeat split; try done. simpl. apply lookup_insert_eq.
Qed.

(** A sale or a cancellation of [id] naming [nft] is rejected when someone
    other than the ledger holds the token of that id in [nft]. *)
Lemma held_elsewhere_rejects w nft id c h :
  collections w !! nft = Some c ->
  holders c !! tokenId (getItem w id) = Some h ->
  h ≠ this w ->
  (forall msg, is_revert (createMarketSale w msg nft id) = true)
  /\ (forall msg, is_revert (cancelMarketItem w msg nft id) = true).
Proof.
  intros Hc Hh Hne. split.
  - intros msg. apply is_revert_true, not_true_iff_false.
    intros [w' H]%is_ok_true.
    apply createMarketSale_custody in H as (c1 & _ & Hc1 & Hh1 & _). congruence.
  - intros caller. apply is_revert_true, not_true_iff_false.
    intros [w' H]%is_ok_true.
    apply cancelMarketItem_custody in H as (c1 & _ & Hc1 & Hh1 & _). congruence.
Qed.

(** X15. A sale or a cancellation goes through only if, in the collection
    named in the call, the ledger holds the token whose id is stored in the
    item; the token is then held by the buyer (by the canceling seller).
    Neither function compares the named collection with the one stored in
    the item. *)
Theorem ledger_moves_only_tokens_it_holds (w : State) (nft : address) (id : Z) :
  (forall msg w',
     createMarketSale w msg nft id = Ok w' ->
     exists c c',
       collections w !! nft = Some c
       /\ holders c !! tokenId (getItem w id) = Some (this w)
       /\ collections w' !! nft = Some c'
       /\ holders c' !! tokenId (getItem w id) = Some (sender msg))
  /\ (forall msg w',
        cancelMarketItem w msg nft id = Ok w' ->
        exists c c',
          collections w !! nft = Some c
          /\ holders c !! tokenId (getItem w id) = Some (this w)
          /\ collections w' !! nft = Some c'
          /\ holders c' !! tokenId (getItem w id) = Some (sender msg))
  /\ ((forall c, collections w !! nft = Some c ->
                 holders c !! tokenId (getItem w id) ≠ Some (this w)) ->
      (forall msg, is_revert (createMarketSale w msg nft id) = true)
      /\ (forall msg, is_revert (cancelMarketItem w msg nft id) = true)).
Proof.
  split; [|split].
  - intros msg w' H.
    apply createMarketSale_custody in H as (c & c' & ? & ? & ? & ? & _).
    by exists c, c'.
  - intros caller w' H.
    apply cancelMarketItem_custody in H as (c & c' & ? & ? & ? & ? & _).
    by exists c, c'.
  - intros Hno. split.
    + intros msg. apply is_revert_true, not_true_iff_false.
      intros [w' H]%is_ok_true.
      apply createMarketSale_custody in H as (c & _ & Hc & Hh & _).
      by apply (Hno c).
    + intros caller. apply is_revert_true, not_true_iff_false.
      intros [w' H]%is_ok_true.
      apply cancelMarketItem_custody in H as (c & _ & Hc & Hh & _).
      by apply (Hno c).
Qed.

Lemma ledger_moves_only_tokens_it_holds_witness :
  (forall msg, is_revert (createMarketSale Scenario.w2 msg Scenario.art 1) = true)
  /\ (forall msg,
        is_revert (cancelMarketItem Scenario.w2 msg Scenario.art 1) = true).
Proof.
  apply (ledger_moves_only_tokens_it_holds Scenario.w2 Scenario.art 1).
  intros c Hc. vm_compute in Hc. injection Hc as <-. vm_compute. discriminate.
Defined.

(** X16. Once a sale has gone through (the buyer not being the ledger
    itself), the very next sale or cancellation of the same id that names
    the same collection is rejected, whoever sends it and whatever is paid:
    the double submission the ledger does not check for is stopped by the
    collection. *)
Theorem createMarketSale_not_repeatable (w : State) (msg : Msg) (nft : address)
    (id : Z) (w' : State) :
  createMarketSale w msg nft id = Ok w' ->
  sender msg ≠ this w ->
  (forall msg', is_revert (createMarketSale w' msg' nft id) = true)
  /\ (forall msg', is_revert (cancelMarketItem w' msg' nft id) = true)
  /\ (forall msg', exec w' (CreateMarketSale msg' nft id) = w')
  /\ (forall msg', exec w' (CancelMarketItem msg' nft id) = w').
Proof.
  intros H Hne.
  apply createMarketSale_custody in H as (c & c' & _ & _ & Hc' & Hh' & Ht & Hthis).
  rewrite <- Ht in Hh'.
  destruct (held_elsewhere_rejects w' nft id c' (sender msg) Hc' Hh') as [Hs Hcn];
    [congruence|].
  split; [done|]. split; [done|]. split.
  - intros msg'. by apply exec_revert_unchanged, Hs.
  - intros caller. by apply exec_revert_unchanged, Hcn.
Qed.

Lemma createMarketSale_not_repeatable_witness :
  (forall msg', is_revert (createMarketSale Scenario.w2 msg' Scenario.art 1) = true)
  /\ (forall msg',
        is_revert (cancelMarketItem Scenario.w2 msg' Scenario.art 1) = true)
  /\ (forall msg', exec Scenario.w2 (CreateMarketSale msg' Scenario.art 1)
                   = Scenario.w2)
  /\ (forall msg', exec Scenario.w2 (CancelMarketItem msg' Scenario.art 1)
                   = Scenario.w2).
Proof.
  apply (createMarketSale_not_repeatable Scenario.w1 (mkMsg Scenario.bob 100)
           Scenario.art 1 Scenario.w2).
  - vm_compute. reflexivity.
  - vm_compute. discriminate.
Defined.

(** X17. Once a cancellation has gone through (the caller not being the
    ledger itself), the very next cancellation or sale of the same id that
    names the same collection is rejected: a canceled listing can be neither
    canceled again nor bought through the collection it was taken back
    from. *)
Theorem cancelMarketItem_not_repeatable (w : State) (msg : Msg) (nft : address)
    (id : Z) (w' : State) :
  cancelMarketItem w msg nft id = Ok w' ->
  sender msg ≠ this w ->
  (forall msg', is_revert (cancelMarketItem w' msg' nft id) = true)
  /\ (forall msg', is_revert (createMarketSale w' msg' nft id) = true)
  /\ (forall msg', exec w' (CancelMarketItem msg' nft id) = w')
  /\ (forall msg', exec w' (CreateMarketSale msg' nft id) = w').
Proof.
  intros H Hne.
  apply cancelMarketItem_custody in H as (c & c' & _ & _ & Hc' & Hh' & Ht & Hthis).
  rewrite <- Ht in Hh'.
  destruct (held_elsewhere_rejects w' nft id c' (sender msg) Hc' Hh') as [Hs Hcn];
    [congruence|].
  split; [done|]. split; [done|]. split.
  - intros msg'. by apply exec_revert_unchanged, Hcn.
  - intros msg'. by apply exec_revert_unchanged, Hs.
Qed.

Lemma cancelMarketItem_not_repeatable_witness :
  (forall msg',
     is_revert (cancelMarketItem Scenario.w5 msg' Scenario.art 3) = true)
  /\ (forall msg', is_revert (createMarketSale Scenario.w5 msg' Scenario.art 3) = true)
  /\ (forall msg', exec Scenario.w5 (CancelMarketItem msg' Scenario.art 3)
                   = Scenario.w5)
  /\ (forall msg', exec Scenario.w5 (CreateMarketSale msg' Scenario.art 3)
                   = Scenario.w5).
Proof.
  apply (cancelMarketItem_not_repeatable Scenario.w4 (mkMsg Scenario.bob 0)
           Scenario.art 3 Scenario.w5).
  - vm_compute. reflexivity.
  - vm_compute. discriminate.
Defined.

(** ** What the client makes of the queries *)

(** X18. The flag [isListed] that the client computes from
    [getLatestMarketItemByTokenId] is true exactly when the newest allocated
    listing of the token still has the zero address as owner, that is, when
    that listing is one of the records [fetchAvailableMarketItems] draws
    from; an older listing of the same token never counts. *)
Theorem isListed_latest_available (w : State) (tid : Z) :
  reachable w ->
  (isListed (getLatestMarketItemByTokenId w tid) = true <->
   exists k,
     1 <= k <= _marketItemIdCounter w
     /\ tokenId (getItem w k) = tid
     /\ (forall j, k < j <= _marketItemIdCounter w -> tokenId (getItem w j) ≠ tid)
     /\ owner (getItem w k) = zero_address
     /\ getItem w k ∈ available w).
Proof.
  intros Hr. pose proof (reachable_inv w Hr) as Hinv.
  pose proof (inv_counter w Hinv) as HC.
  unfold getLatestMarketItemByTokenId, isListed.
  destruct (latest_loop_spec w tid (Z.to_nat (_marketItemIdCounter w)))
    as [(k & Hk & Ht & Hlast & ->)|(Hnone & ->)]; rewrite Z2Nat.id in * by lia;
    cbn [fst snd andb].
  - assert (Ha : allocated w k) by done.
    pose proof (inv_terminal w Hinv k Ha) as Hterm. split.
    + intros Hl. apply andb_true_iff in Hl as [Hs Hc].
      apply negb_true_iff in Hs, Hc.
      assert (Ho : owner (getItem w k) = zero_address) by (by apply Hterm).
      exists k. repeat split; try done; try lia.
      apply list_elem_of_filter. split; [done|]. apply elem_of_table. by exists k.
    + intros (k' & Hk' & Ht' & Hlast' & Ho' & _).
      assert (k' = k) as ->.
      { destruct (Z.lt_trichotomy k k') as [Hlt|[Heq|Hgt]]; [|done|].
        - exfalso. apply (Hlast k'); [lia|done].
        - exfalso. apply (Hlast' k); [lia|done]. }
      apply Hterm in Ho' as [-> ->]. done.
  - split; [done|]. intros (k & Hk & Ht & _). exfalso. by apply (Hnone k).
Qed.

Lemma isListed_latest_available_witness :
  isListed (getLatestMarketItemByTokenId Scenario.w6 7) = true <->
  exists k,
    1 <= k <= _marketItemIdCounter Scenario.w6
    /\ tokenId (getItem Scenario.w6 k) = 7
    /\ (forall j, k < j <= _marketItemIdCounter Scenario.w6 ->
                  tokenId (getItem Scenario.w6 j) ≠ 7)
    /\ owner (getItem Scenario.w6 k) = zero_address
    /\ getItem Scenario.w6 k ∈ available Scenario.w6.
Proof.
  apply (isListed_latest_available Scenario.w6 7).
  apply (Scenario_reachable Scenario.history). vm_compute. reflexivity.
Defined.

(** ** An empty ledger *)

(** X19. As long as no listing has gone through (the created counter is 0),
    whatever else has happened, the two role queries return the empty array
    for every caller, [getLatestMarketItemByTokenId] returns the empty record
    with the flag false for every token id and every cancellation is rejected
    (for non-existence, when it carries no ether); [fetchAvailableMarketItems]
    returns the empty array
    when the other two counters are 0 as well, and panics on the subtraction
    when a sale on a never allocated id has been counted. *)
Theorem empty_ledger_queries (w : State) (caller : address) (tid : Z)
    (nft : address) (id : Z) :
  reachable w ->
  _marketItemIdCounter w = 0 ->
  fetchSellingMarketItems w caller = Ok []
  /\ fetchOwnedMarketItems w caller = Ok []
  /\ getLatestMarketItemByTokenId w tid = (emptyMarketItem, false)
  /\ cancelMarketItem w (mkMsg caller 0) nft id
     = Revert (Error "Market item has to exist")
  /\ (_tokensSoldCounter w = 0 -> _tokensCanceledCounter w = 0 ->
      fetchAvailableMarketItems w = Ok [])
  /\ (0 < _tokensSoldCounter w ->
      fetchAvailableMarketItems w = Revert (Panic 17))
  /\ (forall v, is_revert (cancelMarketItem w (mkMsg caller v) nft id) = true).
Proof.
  intros Hr HC. pose proof (reachable_inv w Hr) as Hinv.
  assert (H0 : cancelMarketItem w (mkMsg caller 0) nft id
               = Revert (Error "Market item has to exist")).
  { unfold cancelMarketItem.
    destruct (inv_phantom w Hinv id) as (_ & -> & _);
      [unfold allocated; rewrite HC; lia | done]. }
  split; [|split; [|split; [|split; [|split; [|split]]]]];
    [ | | | exact H0 | | |
      intros v; destruct (decide (v = 0)) as [->|Hv];
        [ by rewrite H0 | by rewrite cancelMarketItem_payable ] ].
  - unfold fetchSellingMarketItems.
    rewrite fetchMarketItemsByAddressProperty_valid by done.
    unfold table. by rewrite HC.
  - unfold fetchOwnedMarketItems.
    rewrite fetchMarketItemsByAddressProperty_valid by done.
    unfold table. by rewrite HC.
  - unfold getLatestMarketItemByTokenId. by rewrite HC.
  - intros HS HK. unfold fetchAvailableMarketItems. cbv zeta.
    by rewrite HC, HS, HK.
  - intros HS. unfold fetchAvailableMarketItems, checked_sub. cbv zeta.
    rewrite HC. by rewrite (proj2 (Z.leb_gt _ _) HS).
Qed.

Lemma empty_ledger_queries_witness :
  fetchSellingMarketItems Scenario.w0 Scenario.alice = Ok []
  /\ fetchOwnedMarketItems Scenario.w0 Scenario.alice = Ok []
  /\ getLatestMarketItemByTokenId Scenario.w0 7 = (emptyMarketItem, false)
  /\ cancelMarketItem Scenario.w0 (mkMsg Scenario.alice 0) Scenario.art 1
     = Revert (Error "Market item has to exist")
  /\ (_tokensSoldCounter Scenario.w0 = 0 -> _tokensCanceledCounter Scenario.w0 = 0 ->
      fetchAvailableMarketItems Scenario.w0 = Ok [])
  /\ (0 < _tokensSoldCounter Scenario.w0 ->
      fetchAvailableMarketItems Scenario.w0 = Revert (Panic 17))
  /\ (forall v,
        is_revert (cancelMarketItem Scenario.w0 (mkMsg Scenario.alice v)
                     Scenario.art 1) = true).
Proof.
  apply (empty_ledger_queries Scenario.w0 Scenario.alice 7 Scenario.art 1).
  - apply reachable_init.
  - reflexivity.
Defined.

(** ** The client's [unlistNFT] *)

Lemma latest_key_unique w tid k k' (n : Z) :
  1 <= k <= n -> tokenId (getItem w k) = tid ->
  (forall j, k < j <= n -> tokenId (getItem w j) ≠ tid) ->
  1 <= k' <= n -> tokenId (getItem w k') = tid ->
  (forall j, k' < j <= n -> tokenId (getItem w j) ≠ tid) ->
  k' = k.
Proof.
  intros Hk Ht Hlast Hk' Ht' Hlast'.
  destruct (Z.lt_trichotomy k k') as [Hlt|[Heq|Hgt]]; [|done|].
  - exfalso. apply (Hlast k'); [lia|done].
  - exfalso. apply (Hlast' k); [lia|done].
Qed.

(** X20. The client's [unlistNFT] does nothing when the contracts are not
    set, and sends no transaction and reports "NFT is not listed" when no
    allocated item has the token id at the time of its lookup.  When its
    cancellation goes through, after whatever transactions reached the chain
    since the lookup, the item canceled is the listing that was the newest of
    that token id when the client looked, the caller is its stored seller and
    now its owner, and the token id is not zero; the [isListed] flag the
    client computes for the token afterwards is false provided no listing of
    that token id was created in the meantime.  The token id is one that can
    be encoded as a [uint256]. *)
Theorem unlistNFT_cancels_latest (w : State) (between : list Call)
    (account nft : address) (tid : Z) :
  reachable w ->
  forallb wf_call between = true ->
  is_uint256 tid = true ->
  unlistNFT w between None account tid = (NotConnected, w)
  /\ ((forall k, 1 <= k <= _marketItemIdCounter w -> tokenId (getItem w k) ≠ tid) ->
      unlistNFT w between (Some nft) account tid
      = (Failed (Error "NFT is not listed"), w))
  /\ (forall w',
        unlistNFT w between (Some nft) account tid = (Unlisted, w') ->
        exists k,
          1 <= k <= _marketItemIdCounter w
          /\ tokenId (getItem w k) = tid
          /\ (forall j, k < j <= _marketItemIdCounter w ->
                        tokenId (getItem w j) ≠ tid)
          /\ tid ≠ 0
          /\ seller (getItem w k) = account
          /\ cancelMarketItem (run w between) (mkMsg account 0) nft k = Ok w'
          /\ canceled (getItem w' k) = true
          /\ owner (getItem w' k) = account
          /\ ((forall j, _marketItemIdCounter w < j <= _marketItemIdCounter w' ->
                         tokenId (getItem w' j) ≠ tid) ->
              isListed (getLatestMarketItemByTokenId w' tid) = false)).
Proof.
  intros Hr Hwf _. pose proof (reachable_inv w Hr) as Hinv.
  pose proof (inv_counter w Hinv) as HC.
  split; [done|].
  unfold unlistNFT, getLatestMarketItemByTokenId at 1 2.
  destruct (latest_loop_spec w tid (Z.to_nat (_marketItemIdCounter w)))
    as [(k & Hk & Ht & Hlast & ->)|(Hnone & ->)]; rewrite Z2Nat.id in * by lia;
    cbn [negb].
  - split; [intros Hno; exfalso; by apply (Hno k)|].
    intros w' H.
    destruct (inv_stored w Hinv k) as (_ & Hid & _); [done|]. rewrite Hid in H.
    destruct (cancelMarketItem (run w between) (mkMsg account 0) nft k)
      as [w2|f] eqn:Hcancel; [|done].
    injection H as <-.
    destruct (run_grows between w Hwf) as (Hmono & _ & Hev).
    destruct (Hev k Hk) as (_ & _ & Htk & _ & Hsel & _).
    pose proof (reachable_inv _ (reachable_run w between Hr Hwf)) as Hinv1.
    pose proof (inv_counter _ Hinv1) as HC1.
    exists k. pose proof Hcancel as H.
    apply cancelMarketItem_Ok in H as (c & c' & Hpos & Hs & _ & _ & _ & Hw').
    cbn [sender] in Hs, Hw'.
    assert (Hg : forall j, getItem w2 j
                   = if decide (k = j)
                     then with_canceled true
                            (with_owner account (getItem (run w between) k))
                     else getItem (run w between) j).
    { intros j. subst w2. autorewrite with state.
      by rewrite getItem_set_item, getItem_set_collection. }
    assert (Htok : forall j, tokenId (getItem w2 j)
                             = tokenId (getItem (run w between) j)).
    { intros j. rewrite Hg. by case_decide; [subst j|]. }
    assert (HC' : _marketItemIdCounter w2 = _marketItemIdCounter (run w between))
      by (by subst w2).
    repeat split; try done; try lia; try congruence.
    + rewrite Hg, decide_True by done. done.
    + rewrite Hg, decide_True by done. done.
    + intros Hnew.
      unfold isListed, getLatestMarketItemByTokenId.
      destruct (latest_loop_spec w2 tid (Z.to_nat (_marketItemIdCounter w2)))
        as [(k' & Hk' & Ht' & Hlast' & ->)|(Hnone & ->)];
        rewrite Z2Nat.id in * by lia; cbn [fst snd andb]; [|done].
      assert (k' = k) as ->.
      { apply (latest_key_unique w2 tid k k' (_marketItemIdCounter w2)); try done.
        - lia.
        - rewrite Htok. congruence.
        - intros j Hj.
          destruct (decide (j <= _marketItemIdCounter w)) as [Hle|Hgt].
          + rewrite Htok. destruct (Hev j) as (_ & _ & -> & _);
              [unfold allocated; lia|]. apply Hlast. lia.
          + apply Hnew. lia. }
      rewrite Hg, decide_True by done. simpl. apply andb_false_r.
  - split; [done|]. intros w' H. done.
Qed.

Lemma unlistNFT_cancels_latest_witness :
  unlistNFT Scenario.w4 [Scenario.list0] None Scenario.bob 9
  = (NotConnected, Scenario.w4)
  /\ ((forall k, 1 <= k <= _marketItemIdCounter Scenario.w4 ->
                 tokenId (getItem Scenario.w4 k) ≠ 9) ->
      unlistNFT Scenario.w4 [Scenario.list0] (Some Scenario.art) Scenario.bob 9
      = (Failed (Error "NFT is not listed"), Scenario.w4))
  /\ (forall w',
        unlistNFT Scenario.w4 [Scenario.list0] (Some Scenario.art) Scenario.bob 9
        = (Unlisted, w') ->
        exists k,
          1 <= k <= _marketItemIdCounter Scenario.w4
          /\ tokenId (getItem Scenario.w4 k) = 9
          /\ (forall j, k < j <= _marketItemIdCounter Scenario.w4 ->
                        tokenId (getItem Scenario.w4 j) ≠ 9)
          /\ 9 ≠ 0
          /\ seller (getItem Scenario.w4 k) = Scenario.bob
          /\ cancelMarketItem (run Scenario.w4 [Scenario.list0])
               (mkMsg Scenario.bob 0) Scenario.art k = Ok w'
          /\ canceled (getItem w' k) = true
          /\ owner (getItem w' k) = Scenario.bob
          /\ ((forall j, _marketItemIdCounter Scenario.w4 < j
                         <= _marketItemIdCounter w' ->
                         tokenId (getItem w' j) ≠ 9) ->
              isListed (getLatestMarketItemByTokenId w' 9) = false)).
Proof.
  apply (unlistNFT_cancels_latest Scenario.w4 [Scenario.list0] Scenario.bob
           Scenario.art 9).
  - apply (Scenario_reachable
             [Scenario.list7; Scenario.buy1 Scenario.bob; Scenario.relist7;
              Scenario.list9]).
    vm_compute. reflexivity.
  - vm_compute. reflexivity.
  - vm_compute. reflexivity.
Defined.

(** The lookup of [unlistNFT] can be out of date when its cancellation
    arrives: bob looks up token id 7 when his item 2 is the newest listing of
    it, carol lists token 7 of [prints] before his cancellation arrives, and
    after it the newest listing of token id 7 is carol's item 3, for which
    the client still computes [isListed] as true. *)
Remark unlistNFT_stale_lookup :
  exists w',
    unlistNFT Scenario.w3 [Scenario.listp7] (Some Scenario.art) Scenario.bob 7
    = (Unlisted, w')
    /\ canceled (getItem w' 2) = true
    /\ marketItemId (getLatestMarketItemByTokenId w' 7).1 = 3
    /\ isListed (getLatestMarketItemByTokenId w' 7) = true.
Proof. eexists. split; [vm_compute; reflexivity|]. repeat split. Qed.
